(** * RAG_Agent-ReAct_Agent: a shallow embedding of the demo scripts

    The repository is a set of independent Python scripts: two
    retrieval-augmented-generation pipelines ([langchainRAG.py],
    [langchain(pinecone).py]), a price agent
    ([Bitcoin_predictor_Agent(ReAct).py]) and a movie agent
    ([Movie_Scrapper_bot/webScrapper_chatbot.py] and its Streamlit twin).

    A Python string is modelled by its UTF-8 encoding ([string]): a
    character is a byte that continues no other, with the continuation
    bytes after it, and lengths and slices count characters.  Exceptions
    are an [outcome] sum, and every call that leaves the process (HTTP,
    vector store, LLM) is an oracle together with a trace of the calls that
    were made.  An oracle is a function of its arguments: the same request
    gets the same answer within one run.  What the interpreter decides
    from the Unicode database (the lower case of a title, which characters
    [repr] prints) is taken from the environment in the same way.

    Part I holds the programs, one module per script, each followed by the
    services used in its examples.  Part II holds the properties, one
    module of facts per module of Part I. *)

From Stdlib Require Import ZArith List Ascii Lia Bool.
From Stdlib Require Import Floats.PrimFloat Floats.FloatOps Floats.SpecFloat.
From stdpp Require Import base gmap strings list.

Set Default Proof Using "Type".


(** * Part I: the programs *)

(** ** Python values shared by the scripts *)

Module Py.

(** The exceptions the scripts can meet.  [ExternalError] stands for
    whatever a third-party call raises (a network failure, a rejected API
    call, an unreadable file). *)
Inductive exn : Type :=
| ValueError (msg : string)
| AttributeError
| TypeError
| EOFError
| JSONDecodeError
| KeyError (key : string)
| ExternalError (reason : string).

(** A call either returns a value or raises. *)
Inductive outcome (A : Type) : Type :=
| Return (a : A)
| Raise (e : exn).

Arguments Return {A} a.
Arguments Raise {A} e.

(** The characters that a Rocq literal cannot hold directly. *)
Definition dquote : ascii := ascii_of_nat 34.
Definition nl : string := String (ascii_of_nat 10) "".

(** The lowering of the ASCII letters, for the test of the exit words.
    [query.lower()] is one of [exit] and [quit] exactly when this lowering
    of [query] is: outside ASCII only two characters have an ASCII letter
    in their lower case, the Kelvin sign ([k]) and the dotted capital I
    ([i] followed by a combining dot), and neither gives one of the two
    words. *)
Definition lower_ascii (c : ascii) : ascii :=
  let n := nat_of_ascii c in
  if (65 <=? n) && (n <=? 90) then ascii_of_nat (n + 32) else c.

Fixpoint lower (s : string) : string :=
  match s with
  | EmptyString => EmptyString
  | String c t => String (lower_ascii c) (lower t)
  end.

Fixpoint starts_with (p s : string) : bool :=
  match p, s with
  | EmptyString, _ => true
  | String _ _, EmptyString => false
  | String a p', String b s' => Ascii.eqb a b && starts_with p' s'
  end.

(** [needle in hay] on strings. *)
Fixpoint contains (needle hay : string) : bool :=
  starts_with needle hay
  || match hay with
     | EmptyString => false
     | String _ t => contains needle t
     end.

(** [sep.join(parts)]. *)
Fixpoint join (sep : string) (parts : list string) : string :=
  match parts with
  | [] => ""
  | [x] => x
  | x :: rest => x +:+ sep +:+ join sep rest
  end.

(** A byte [10xxxxxx] continues the character begun before it. *)
Definition continuation (c : ascii) : bool :=
  let n := nat_of_ascii c in (128 <=? n) && (n <? 192).

(** [len(s)]: the number of characters. *)
Fixpoint len (s : string) : nat :=
  match s with
  | EmptyString => 0
  | String c t => if continuation c then len t else S (len t)
  end.

(** [s[:n]]: the first [n] characters, each with its continuation
    bytes. *)
Fixpoint str_take (n : nat) (s : string) : string :=
  match s with
  | EmptyString => ""
  | String c t =>
      if continuation c then String c (str_take n t)
      else
        match n with
        | O => ""
        | S n' => String c (str_take n' t)
        end
  end.

(** The UTF-8 encoding of a code point. *)
Definition utf8_byte (n : N) : ascii := ascii_of_N n.

Definition utf8 (cp : N) : string :=
  (if cp <? 128 then String (utf8_byte cp) ""
   else if cp <? 2048 then
     String (utf8_byte (192 + cp / 64))
       (String (utf8_byte (128 + cp mod 64)) "")
   else if cp <? 65536 then
     String (utf8_byte (224 + cp / 4096))
       (String (utf8_byte (128 + (cp / 64) mod 64))
          (String (utf8_byte (128 + cp mod 64)) ""))
   else
     String (utf8_byte (240 + cp / 262144))
       (String (utf8_byte (128 + (cp / 4096) mod 64))
          (String (utf8_byte (128 + (cp / 64) mod 64))
             (String (utf8_byte (128 + cp mod 64)) ""))))%N.

(** Truthiness of a string that may be [None]. *)
Definition truthy_str (s : option string) : bool :=
  match s with
  | Some (String _ _) => true
  | _ => false
  end.

Definition hex_digit (n : nat) : ascii :=
  ascii_of_nat (if (n <? 10) then 48 + n else 87 + n).

(** [repr] of one ASCII character inside quotes [q]. *)
Definition repr_char (q c : ascii) : string :=
  let n := nat_of_ascii c in
  if Ascii.eqb c "\" then "\\"
  else if Ascii.eqb c q then String "\" (String q "")
  else if (n =? 10) then "\n"
  else if (n =? 13) then "\r"
  else if (n =? 9) then "\t"
  else if (n <? 32) || (n =? 127)
       then String "\" (String "x" (String (hex_digit (n / 16))
                                      (String (hex_digit (n mod 16)) "")))
  else String c "".

(** The continuation bytes that a text begins with. *)
Fixpoint continuations (s : string) : string :=
  match s with
  | EmptyString => ""
  | String c t => if continuation c then String c (continuations t) else ""
  end.

(** The code point of a character, from its bytes. *)
Definition code_point (ch : string) : N :=
  (match ch with
   | EmptyString => 0
   | String a EmptyString => N_of_ascii a
   | String a (String b EmptyString) =>
       (N_of_ascii a - 192) * 64 + (N_of_ascii b - 128)
   | String a (String b (String c EmptyString)) =>
       (N_of_ascii a - 224) * 4096 + (N_of_ascii b - 128) * 64
       + (N_of_ascii c - 128)
   | String a (String b (String c (String d _))) =>
       (N_of_ascii a - 240) * 262144 + (N_of_ascii b - 128) * 4096
       + (N_of_ascii c - 128) * 64 + (N_of_ascii d - 128)
   end)%N.

(** [width] hexadecimal digits of a number. *)
Fixpoint hex (width : nat) (n : N) : string :=
  match width with
  | O => ""
  | S w => hex w (n / 16) +:+ String (hex_digit (N.to_nat (n mod 16))) ""
  end.

(** The escape of a character outside ASCII that is not printable. *)
Definition escape (cp : N) : string :=
  if (cp <? 256)%N then String "\" (String "x" (hex 2 cp))
  else if (cp <? 65536)%N then String "\" (String "u" (hex 4 cp))
  else String "\" (String "U" (hex 8 cp)).

(** The characters of [repr(s)] between the quotes.  A character outside
    ASCII is copied when [printable], which stands for [str.isprintable]
    of the interpreter, holds of its code point, and escaped otherwise;
    [keep] tells whether the continuation bytes met belong to a
    character that is copied. *)
Fixpoint repr_body (printable : N -> bool) (q : ascii) (keep : bool)
  (s : string) : string :=
  match s with
  | EmptyString => ""
  | String c t =>
      if continuation c then
        (if keep then String c "" else "") +:+ repr_body printable q keep t
      else if nat_of_ascii c <? 128 then
        repr_char q c +:+ repr_body printable q true t
      else if printable (code_point (String c (continuations t))) then
        String c (repr_body printable q true t)
      else
        escape (code_point (String c (continuations t)))
        +:+ repr_body printable q false t
  end.

Definition has_char (c : ascii) (s : string) : bool :=
  contains (String c "") s.

(** [repr(s)] for a [str]: single quotes unless the text has a single
    quote and no double quote. *)
Definition repr (printable : N -> bool) (s : string) : string :=
  let q : ascii :=
    if has_char "'" s && negb (has_char dquote s) then dquote else "'"%char in
  String q (repr_body printable q true s +:+ String q "").

End Py.

(** ** The vector index service

    Chroma Cloud and Pinecone are reached through their clients only.  The
    service is modelled by what section 6 of the specification lists for
    it: named collections of entries, each entry keyed by an identifier
    that the client library draws afresh ([uuid4]) for every stored
    document. *)

Module VectorStore.

Section Entries.
Context {D : Type}.

Record cloud := Cloud {
  collections : gmap string (list (nat * D));
  next_id : nat
}.

Definition list_collections (c : cloud) : list string :=
  elements (dom (collections c)).

Definition delete_collection (name : string) (c : cloud) : cloud :=
  Cloud (delete name (collections c)) (next_id c).


(** [from_documents], when the service takes the call: the collection
    is taken as it is, or created when missing, and every document is
    added under a fresh identifier.  A call that the service refuses is
    the caller's to model. *)
Definition from_documents (name : string) (docs : list D) (c : cloud)
  : cloud :=
  let old := default [] (collections c !! name) in
  let new := zip (seq (next_id c) (length docs)) docs in
  Cloud (<[name := old ++ new]> (collections c)) (next_id c + length docs).

(** The entries of a collection, none when it does not exist. *)
Definition entries (name : string) (c : cloud) : list (nat * D) :=
  default [] (collections c !! name).

End Entries.

Arguments cloud : clear implicits.

End VectorStore.

(** ** langchainRAG.py *)

Module LangchainRAG.
Import Py VectorStore.

Record document := Document { page_content : string; source : string }.

Inductive message : Type :=
| HumanMessage (content : string)
| AIMessage (content : string).

(** The calls that leave the process, in the order they are made. *)
Inductive event : Type :=
| DirectoryLoad (path glob : string)
| WebLoad (url : string)
| LoadEmbeddings (model_name : string)
| ConnectCloud
| ListCollections
| DeleteCollection (name : string)
| FromDocuments (name : string) (n : nat)
| Retrieve (question : string)
| Generate (prompt : string).

(** What the script reaches outside its own code: the file system, the
    loaders, the splitter, the embedding model, the cloud client, the
    retriever over the built store, the string form of the retrieved
    documents, the hosted model, and [str.isprintable] of the interpreter
    by code point.  A call on the vector store does what
    [VectorStore] says, or it is refused: [store_fault] tells, for a call
    and the state of the project, what is raised then and the state in
    which the refused call leaves the project. *)
Record services := Services {
  path_exists : string -> bool;
  directory_load : string -> string -> outcome (list document);
  web_load : string -> outcome (list document);
  split_with : nat -> nat -> list document -> list document;
  load_embeddings : string -> outcome unit;
  connect_cloud : outcome unit;
  store_fault : event -> cloud document -> option (exn * cloud document);
  retrieve : string -> outcome (list document);
  render_docs : list document -> string;
  llm : string -> outcome string;
  isprintable : N -> bool
}.

Record world := World {
  store : cloud document;
  log : list event
}.

(** A step of the script: it returns or raises, and leaves a world. *)
Definition M (A : Type) : Type := world -> outcome A * world.

Definition ret {A} (a : A) : M A := fun w => (Return a, w).

Definition raise {A} (e : exn) : M A := fun w => (Raise e, w).

Definition bind {A B} (m : M A) (k : A -> M B) : M B :=
  fun w =>
    match m w with
    | (Return a, w') => k a w'
    | (Raise e, w') => (Raise e, w')
    end.

Notation "'do' x <- m ; k" := (bind m (fun x => k))
  (at level 10, x name, m at level 100, k at level 200).

(** An outside call: it is logged, then its answer is used. *)
Definition call {A} (e : event) (r : outcome A) : M A :=
  fun w => (r, World (store w) (log w ++ [e])).

(** An outside call on the vector store. *)
Definition on_store {A} (sv : services) (e : event)
  (f : cloud document -> A * cloud document) : M A :=
  fun w =>
    match store_fault sv e (store w) with
    | Some (err, c) => (Raise err, World c (log w ++ [e]))
    | None => let '(a, c) := f (store w) in (Return a, World c (log w ++ [e]))
    end.

Fixpoint load_urls (sv : services) (urls : list string)
  (docs : list document) : M (list document) :=
  match urls with
  | [] => ret docs
  | url :: rest =>
      do loaded <- call (WebLoad url) (web_load sv url);
      load_urls sv rest (docs ++ loaded)
  end.

Definition valid_path (sv : services) (path : option string) : bool :=
  match path with
  | Some (String c t) => path_exists sv (String c t)
  | _ => false
  end.

Definition nonempty_urls (urls : option (list string)) : bool :=
  match urls with
  | Some (_ :: _) => true
  | _ => false
  end.

Definition load_documents (sv : services) (path : option string)
  (urls : option (list string)) : M (list document) :=
  if valid_path sv path then
    let p := default "" path in
    do pdfs <- call (DirectoryLoad p "**/*.pdf")
                 (directory_load sv p "**/*.pdf");
    do txts <- call (DirectoryLoad p "**/*.txt")
                 (directory_load sv p "**/*.txt");
    ret (pdfs ++ txts)
  else if nonempty_urls urls then
    load_urls sv (default [] urls) []
  else
    raise (ValueError "Provide either a valid local path or URLs list.").

Definition split_documents (sv : services) (documents : list document)
  : list document :=
  split_with sv 1000 200 documents.

Definition collection_name : string := "Langchain_store".

Definition build_vector_store (sv : services) (path : string) : M string :=
  do docs <- load_documents sv (Some path) None;
  let chunks := split_documents sv docs in
  do _ <- call (LoadEmbeddings "sentence-transformers/all-MiniLM-L6-v2")
            (load_embeddings sv "sentence-transformers/all-MiniLM-L6-v2");
  do _ <- call ConnectCloud (connect_cloud sv);
  do existing_collections <- on_store sv ListCollections
                               (fun c => (list_collections c, c));
  do _ <- (if bool_decide (collection_name ∈ existing_collections)
      then on_store sv (DeleteCollection collection_name)
             (fun c => (tt, delete_collection collection_name c))
      else ret tt);
  do _ <- on_store sv (FromDocuments "Langchain_store" (length chunks))
       (fun c => (tt, from_documents "Langchain_store" chunks c));
  ret "Langchain_store".

(** The store that a build leaves, in one expression: the old collection
    dropped when it was listed, then the chunks added. *)
Definition rebuilt (chunks : list document) (c : cloud document)
  : cloud document :=
  from_documents collection_name chunks
    (if bool_decide (collection_name ∈ list_collections c)
     then delete_collection collection_name c
     else c).

(** The outside calls of a build that loads from a directory. *)
Definition build_calls (path : string) (n : nat) (c : cloud document)
  : list event :=
  [DirectoryLoad path "**/*.pdf"; DirectoryLoad path "**/*.txt";
   LoadEmbeddings "sentence-transformers/all-MiniLM-L6-v2"; ConnectCloud;
   ListCollections]
  ++ (if bool_decide (collection_name ∈ list_collections c)
      then [DeleteCollection collection_name] else [])
  ++ [FromDocuments collection_name n].

(** A [PromptTemplate]: literal text and named variables.  Formatting
    looks up every variable of the template among the inputs; an input
    that the template does not name is not used. *)
Inductive segment : Type :=
| Lit (text : string)
| Var (name : string).

Fixpoint lookup_input (name : string) (inputs : list (string * string))
  : option string :=
  match inputs with
  | [] => None
  | (k, v) :: rest => if String.eqb k name then Some v else lookup_input name rest
  end.

Fixpoint format_template (template : list segment)
  (inputs : list (string * string)) : outcome string :=
  match template with
  | [] => Return ""
  | Lit text :: rest =>
      match format_template rest inputs with
      | Return s => Return (text +:+ s)
      | Raise e => Raise e
      end
  | Var name :: rest =>
      match lookup_input name inputs with
      | None => Raise (KeyError name)
      | Some v =>
          match format_template rest inputs with
          | Return s => Return (v +:+ s)
          | Raise e => Raise e
          end
      end
  end.

Definition prompt : list segment :=
  [ Lit ("You are an expert assistant. Use ONLY the following context to answer." +:+ nl);
    Lit "If the answer is not in the context, say: ";
    Lit (String dquote "I could not find the answer in the document."
         +:+ String dquote nl +:+ nl);
    Lit ("Context:" +:+ nl); Var "context"; Lit (nl +:+ nl);
    Lit ("Question:" +:+ nl); Var "question"; Lit (nl +:+ nl);
    Lit "Answer:" ].

(** The text that the chain computes under the key [chat_history]. *)
Definition render_history (messages : list message) : string :=
  join nl (map (fun m => match m with
                         | HumanMessage c => "Human: " +:+ c
                         | AIMessage c => "AI: " +:+ c
                         end) messages).

(** [str({'question': query})]: [RunnablePassthrough] hands the whole
    input mapping to the key [question]. *)
Definition str_question_dict (sv : services) (query : string) : string :=
  "{'question': " +:+ repr (isprintable sv) query +:+ "}".

(** The three values of the first step of the chain. *)
Definition chain_inputs (sv : services) (messages : list message)
  (query : string) (context : list document) : list (string * string) :=
  [ ("context", render_docs sv context);
    ("question", str_question_dict sv query);
    ("chat_history", render_history messages) ].

(** [rag_chain.invoke({'question': query})], with the messages that
    [chat_history] holds at that moment. *)
Definition rag_chain_invoke (sv : services) (messages : list message)
  (query : string) : M string :=
  do context <- call (Retrieve query) (retrieve sv query);
  match format_template prompt (chain_inputs sv messages query context) with
  | Raise e => raise e
  | Return text => call (Generate text) (llm sv text)
  end.

(** How the interactive session ends. *)
Inductive session_end : Type :=
| Closed
| Crashed (e : exn).

Definition is_exit (query : string) : bool :=
  String.eqb (lower query) "exit" || String.eqb (lower query) "quit".

(** The loop of [__main__] over the lines typed by the user.  What it
    prints is left out.  Reading past the last line raises [EOFError]. *)
Fixpoint chat_loop (sv : services) (inputs : list string)
  (chat_history : list message) (w : world)
  : session_end * list message * world :=
  match inputs with
  | [] => (Crashed EOFError, chat_history, w)
  | query :: rest =>
      if is_exit query then (Closed, chat_history, w)
      else
        match rag_chain_invoke sv chat_history query w with
        | (Raise e, w') => (Crashed e, chat_history, w')
        | (Return result, w') =>
            chat_loop sv rest
              (chat_history ++ [HumanMessage query; AIMessage result]) w'
        end
  end.

(** The prompt that formatting yields: the inputs [context] and
    [question] between the literal parts of the template. *)
Definition prompt_text (sv : services) (query : string)
  (context : list document) : string :=
  "You are an expert assistant. Use ONLY the following context to answer."
  +:+ nl +:+ "If the answer is not in the context, say: "
  +:+ String dquote "I could not find the answer in the document."
  +:+ String dquote nl +:+ nl
  +:+ "Context:" +:+ nl +:+ render_docs sv context +:+ nl +:+ nl
  +:+ "Question:" +:+ nl +:+ str_question_dict sv query +:+ nl +:+ nl
  +:+ "Answer:".

(** A completed query: retrieval returned, and the model answered [q]
    with [a]. *)
Definition answered (sv : services) (q a : string) : Prop :=
  exists context,
    retrieve sv q = Return context
    /\ llm sv (prompt_text sv q context) = Return a.

(** What ends a session after its completed queries: the end of the
    input, an exit word, or a question whose retrieval or generation
    raises. *)
Definition stops (sv : services) (inputs : list string) : Prop :=
  match inputs with
  | [] => True
  | query :: _ =>
      is_exit query = true
      \/ (exists e, retrieve sv query = Raise e)
      \/ (exists context e,
            retrieve sv query = Return context
            /\ llm sv (prompt_text sv query context) = Raise e)
  end.

(** The turns that [n] completed queries leave in memory: question, then
    answer, query after query. *)
Fixpoint alternating_turns (questions answers : list string)
  : list message :=
  match questions, answers with
  | q :: qs, a :: ans => HumanMessage q :: AIMessage a :: alternating_turns qs ans
  | _, _ => []
  end.

(** *** Sessions used in the examples *)

Definition empty_world : world := World (Cloud ∅ 0) [].

Definition sky : document := Document "The sky is blue." "sky.txt".

(** A store with one document, a splitter that leaves documents whole, a
    cloud that refuses nothing and a model that always answers the same. *)
Definition demo_services : services :=
  Services (fun p => String.eqb p "docs")
    (fun _ glob => if String.eqb glob "**/*.txt" then Return [sky] else Return [])
    (fun url => if String.eqb url "https://down.example"
                then Raise (ExternalError "connection refused")
                else Return [Document "page" url])
    (fun _ _ docs => docs)
    (fun _ => Return tt)
    (Return tt)
    (fun _ _ => None)
    (fun _ => Return [sky])
    (fun docs => "[" +:+ join ", " (map page_content docs) +:+ "]")
    (fun _ => Return "It is blue.")
    (fun _ => true).

(** The same, with a model that rejects every call. *)
Definition failing_services : services :=
  Services (path_exists demo_services) (directory_load demo_services)
    (web_load demo_services) (split_with demo_services)
    (load_embeddings demo_services) (connect_cloud demo_services)
    (store_fault demo_services)
    (retrieve demo_services) (render_docs demo_services)
    (fun _ => Raise (ExternalError "quota exceeded"))
    (isprintable demo_services).

(** A directory [empty] without a file in it, and a store that refuses
    to take an empty list of chunks: the call raises [ValueError] and
    leaves the project as it found it. *)
Definition strict_services : services :=
  Services (fun p => String.eqb p "docs" || String.eqb p "empty")
    (fun p glob => if String.eqb p "docs" && String.eqb glob "**/*.txt"
                   then Return [sky] else Return [])
    (web_load demo_services) (split_with demo_services)
    (load_embeddings demo_services) (connect_cloud demo_services)
    (fun ev c =>
       match ev with
       | FromDocuments name O =>
           Some (ValueError "empty list of documents", c)
       | _ => None
       end)
    (retrieve demo_services) (render_docs demo_services) (llm demo_services)
    (isprintable demo_services).

(** A directory with a PDF report and a text file that cannot be
    decoded. *)
Definition unreadable_services : services :=
  Services (fun p => String.eqb p "docs")
    (fun _ glob => if String.eqb glob "**/*.txt"
                   then Raise (ExternalError "invalid start byte")
                   else Return [Document "A report." "report.pdf"])
    (web_load demo_services) (split_with demo_services)
    (load_embeddings demo_services) (connect_cloud demo_services)
    (store_fault demo_services)
    (retrieve demo_services) (render_docs demo_services) (llm demo_services)
    (isprintable demo_services).



End LangchainRAG.

(** ** langchain(pinecone).py *)

Module LangchainPinecone.
Import Py VectorStore.

Definition document := LangchainRAG.document.

Record services := Services {
  directory_load : string -> string -> outcome (list document);
  split_with : nat -> nat -> list document -> list document;
  index_name : string
}.


Definition demo_services : services :=
  Services (fun _ _ => Return [LangchainRAG.sky]) (fun _ _ docs => docs) "demo".

End LangchainPinecone.

(** ** Bitcoin_predictor_Agent(ReAct).py *)

Module BitcoinAgent.
Import Py.

(** The literal [83.1] is the binary64 number nearest to 83.1. *)
Definition conversion_rate : float := 0x1.4c66666666666p+6%float.

(** The decimal digits of [n], least significant first. *)
Fixpoint digits_from (fuel : nat) (n : Z) : list Z :=
  match fuel with
  | O => []
  | S fuel' =>
      if (n <? 10)%Z then [n]
      else (n mod 10)%Z :: digits_from fuel' (n / 10)%Z
  end.

Definition digits (n : Z) : list Z :=
  digits_from (S (Z.to_nat (Z.log2 n))) n.

Definition digit_char (d : Z) : ascii := ascii_of_nat (48 + Z.to_nat d).

(** The thousands separator of the format option [,], on characters given
    least significant first. *)
Fixpoint group3 (cs : list ascii) : list ascii :=
  match cs with
  | a :: b :: c :: ((_ :: _) as rest) => a :: b :: c :: ","%char :: group3 rest
  | _ => cs
  end.

Definition grouped (n : Z) : string :=
  String.string_of_list_ascii (rev (group3 (map digit_char (digits n)))).

Definition two_digits (n : Z) : string :=
  String (digit_char (n / 10)) (String (digit_char (n mod 10)) "").

(** The integer nearest to [n / d], ties to even. *)
Definition round_half_even (n d : Z) : Z :=
  let q := (n / d)%Z in
  let r := (n mod d)%Z in
  if (2 * r <? d)%Z then q
  else if (d <? 2 * r)%Z then (q + 1)%Z
  else if Z.even q then q else (q + 1)%Z.

(** The magnitude [m * 2^e] in hundredths, correctly rounded. *)
Definition hundredths (m : positive) (e : Z) : Z :=
  if (0 <=? e)%Z then (Z.pos m * 2 ^ e * 100)%Z
  else round_half_even (Z.pos m * 100) (2 ^ (- e)).

Definition sign_text (negative : bool) : string :=
  if negative then "-" else "".

(** [format(x, ',.2f')]. *)
Definition format_comma_2f (x : float) : string :=
  match Prim2SF x with
  | S754_nan => "nan"
  | S754_infinity s => sign_text s +:+ "inf"
  | S754_zero s => sign_text s +:+ "0.00"
  | S754_finite s m e =>
      let q := hundredths m e in
      sign_text s +:+ grouped (q / 100) +:+ "." +:+ two_digits (q mod 100)
  end.

Definition rupee : string := "₹".

Definition btc_to_inr (usd_price : float) : string :=
  rupee +:+ format_comma_2f (usd_price * conversion_rate)%float +:+ " INR".

(** *** What the formatted text has to be

    The definitions below say in their own terms what a text with comma
    grouping and two decimal places is; the formatter above is compared
    with them. *)

Definition chars (s : string) : list ascii := String.list_ascii_of_string s.

Definition digit_of (c : ascii) : option Z :=
  let n := Z.of_nat (nat_of_ascii c) in
  if (48 <=? n)%Z && (n <=? 57)%Z then Some (n - 48)%Z else None.

(** The number that a decimal numeral denotes, most significant digit
    first; [None] when a character is no digit. *)
Definition numeral_value (cs : list ascii) : option Z :=
  fold_left (fun acc c =>
               match acc, digit_of c with
               | Some a, Some d => Some (a * 10 + d)%Z
               | _, _ => None
               end) cs (Some 0%Z).

Definition not_comma (c : ascii) : bool := negb (Ascii.eqb c ",").

(** Counted from the right, every fourth character is a comma and no
    other is; the text does not begin with a comma. *)
Definition comma_every_three (cs : list ascii) : Prop :=
  (forall i c, rev cs !! i = Some c -> (c = ","%char <-> i mod 4 = 3))
  /\ length cs mod 4 <> 0.

(** [q] is the number of hundredths nearest to [m * 2^e], the even one
    when two are as near. *)
Definition nearest_hundredth (m : positive) (e q : Z) : Prop :=
  if (0 <=? e)%Z then q = (Z.pos m * 2 ^ e * 100)%Z
  else
    (Z.abs (2 * (q * 2 ^ (- e) - Z.pos m * 100)) <= 2 ^ (- e))%Z
    /\ (Z.abs (2 * (q * 2 ^ (- e) - Z.pos m * 100)) = 2 ^ (- e) ->
        Z.even q = true)%Z.

(** The text of an amount of [q] hundredths: a sign, the whole part with
    its separators, a point and two digits. *)
Definition amount_text (negative : bool) (q : Z) (body : string) : Prop :=
  exists whole cents,
    body = sign_text negative +:+ whole +:+ "." +:+ cents
    /\ numeral_value (List.filter not_comma (chars whole)) = Some (q / 100)%Z
    /\ comma_every_three (chars whole)
    /\ (head (chars whole) = Some "0"%char -> whole = "0")
    /\ length (chars cents) = 2
    /\ numeral_value (chars cents) = Some (q mod 100)%Z.

End BitcoinAgent.

(** ** Movie_Scrapper_bot/webScrapper_chatbot.py

    [ReAct_Webscrapper_Streamlit.py] defines the same helpers and tools,
    line for line, except that its theaters carry no [wikidata] field. *)

Module MovieBot.
Import Py.

(** The value handed to [json.dumps]. *)
#[local] Unset Elimination Schemes.
Inductive json : Type :=
| JNull
| JNum (z : Z)
| JStr (s : string)
| JArr (items : list json)
| JObj (fields : list (string * json)).
#[local] Set Elimination Schemes.

(** An item of [results] as TMDb sends it.  [m.get(key)] is [None] for a
    missing key. *)
Record tmdb_movie := TmdbMovie {
  m_id : option Z;
  m_title : option string;
  m_release_date : option string;
  m_original_language : option string;
  m_overview : option string;
  m_poster_path : option string
}.

Record tmdb_page := TmdbPage {
  results : list tmdb_movie;
  total_pages : option Z
}.

(** An HTTP answer; [json_body] is [None] when the body is not JSON. *)
Record response := Response {
  status_code : Z;
  json_body : option tmdb_page
}.

(** The dictionary built for each movie. *)
Record movie := Movie {
  id : option Z;
  title : option string;
  release_date : option string;
  language : option string;
  overview : option string;
  poster : option string
}.

Record element := Element {
  tags : list (string * string);
  el_lat : option string;
  el_lon : option string;
  center : option (string * string)
}.

Record theater := Theater {
  name : string;
  address : string;
  operator : string;
  brand : option string;
  wikidata : option string;
  latitude : option string;
  longitude : option string
}.

(** The three dictionaries that [get_theaters_open] can return. *)
Inductive theaters_data : Type :=
| TheatersError (error : string)
| TheatersMessage (message : string)
| TheatersFound (city : string) (theaters : list theater).

(** The HTTP services: TMDb now-playing by region and page, Nominatim by
    city, Overpass by coordinates ([None]: no key [elements]).  With them
    comes [str.lower] of the interpreter, which lowers by the Unicode
    database: the tools are modelled for whatever it gives. *)
Record services := Services {
  tmdb_get : string -> Z -> outcome response;
  nominatim_get : string -> outcome (list (string * string));
  overpass_post : string -> string -> outcome (option (list element));
  str_lower : string -> string
}.

Inductive event : Type :=
| TmdbGet (region : string) (page : Z)
| Sleep
| NominatimGet (city : string)
| OverpassPost (lat lon : string).

(** A step returns or raises, and tells the calls it made. *)
Definition M (A : Type) : Type := outcome A * list event.

Definition ret {A} (a : A) : M A := (Return a, []).

Definition raise {A} (e : exn) : M A := (Raise e, []).

Definition bind {A B} (m : M A) (k : A -> M B) : M B :=
  match m with
  | (Return a, t) => let '(r, t') := k a in (r, t ++ t')
  | (Raise e, t) => (Raise e, t)
  end.

Notation "'do' x <- m ; k" := (bind m (fun x => k))
  (at level 10, x name, m at level 100, k at level 200).

Definition call {A} (e : event) (r : outcome A) : M A := (r, [e]).

Definition movie_of (m : tmdb_movie) : movie :=
  Movie (m_id m) (m_title m) (m_release_date m) (m_original_language m)
    (m_overview m)
    (if truthy_str (m_poster_path m)
     then Some ("https://image.tmdb.org/t/p/w500" +:+ default "" (m_poster_path m))
     else None).

(** The body of [for page in range(1, 3)], over the pages still to fetch,
    with the movies gathered so far. *)
Fixpoint fetch_pages (sv : services) (region : string) (pages : list Z)
  (gathered : list movie) : M (list movie) :=
  match pages with
  | [] => ret gathered
  | page :: rest =>
      do r <- call (TmdbGet region page) (tmdb_get sv region page);
      if negb (status_code r =? 200)%Z then ret gathered
      else
        match json_body r with
        | None => raise JSONDecodeError
        | Some data =>
            let gathered' := gathered ++ map movie_of (results data) in
            if (default 1 (total_pages data) <=? page)%Z then ret gathered'
            else
              do _ <- call Sleep (Return tt);
              fetch_pages sv region rest gathered'
        end
  end.

Definition get_now_playing_tmdb (sv : services) (region : string)
  : M (list movie) :=
  fetch_pages sv region [1; 2]%Z [].

Definition opt_json {A} (f : A -> json) (o : option A) : json :=
  match o with
  | Some a => f a
  | None => JNull
  end.

Definition movie_json (m : movie) : json :=
  JObj [ ("id", opt_json JNum (id m));
         ("title", opt_json JStr (title m));
         ("release_date", opt_json JStr (release_date m));
         ("language", opt_json JStr (language m));
         ("overview", opt_json JStr (overview m));
         ("poster", opt_json JStr (poster m)) ].

(** The tool [get_now_playing]. *)
Definition get_now_playing (sv : services) (region : string) : M json :=
  do movies <- get_now_playing_tmdb sv region;
  ret (JArr (map movie_json (take 10 movies))).

Fixpoint tag (key fallback : string) (kv : list (string * string)) : string :=
  match kv with
  | [] => fallback
  | (k, v) :: rest => if String.eqb k key then v else tag key fallback rest
  end.

Fixpoint tag_opt (key : string) (kv : list (string * string))
  : option string :=
  match kv with
  | [] => None
  | (k, v) :: rest => if String.eqb k key then Some v else tag_opt key rest
  end.

Definition first_some {A} (a b : option A) : option A :=
  match a with
  | Some _ => a
  | None => b
  end.

Definition theater_of (el : element) : theater :=
  Theater (tag "name" "Unnamed Cinema" (tags el))
    (tag "addr:street" "N/A" (tags el))
    (tag "operator" "Unknown" (tags el))
    (tag_opt "brand" (tags el))
    (tag_opt "wikidata" (tags el))
    (first_some (el_lat el) (fst <$> center el))
    (first_some (el_lon el) (snd <$> center el)).

Definition exn_text (e : exn) : string :=
  match e with
  | ValueError msg => msg
  | KeyError key => key
  | ExternalError reason => reason
  | _ => ""
  end.

(** [get_theaters_open]: whatever is raised inside is caught and turned
    into an error dictionary, so the function always returns. *)
Definition get_theaters_open (sv : services) (city : string) (limit : nat)
  : theaters_data * list event :=
  match nominatim_get sv city with
  | Raise e => (TheatersError (exn_text e), [NominatimGet city])
  | Return [] =>
      (TheatersError ("Could not geocode city: " +:+ city),
       [NominatimGet city])
  | Return ((lat, lon) :: _) =>
      let calls := [NominatimGet city; OverpassPost lat lon] in
      match overpass_post sv lat lon with
      | Raise e => (TheatersError (exn_text e), calls)
      | Return None
      | Return (Some []) =>
          (TheatersMessage ("No theaters found near " +:+ city), calls)
      | Return (Some elements) =>
          (TheatersFound city (map theater_of (take limit elements)), calls)
      end
  end.

(** [theaters_data.get('theaters', [])]. *)
Definition theaters_of (d : theaters_data) : list theater :=
  match d with
  | TheatersFound _ ts => ts
  | _ => []
  end.

(** [s.lower()]: the empty text has nothing to lower. *)
Definition py_lower (sv : services) (s : string) : string :=
  match s with
  | EmptyString => ""
  | _ => str_lower sv s
  end.

(** The search loop of [find_movie_in_city]; [None.lower()] raises. *)
Fixpoint first_match (sv : services) (movie_title : string)
  (now_playing : list movie) : outcome (option movie) :=
  match now_playing with
  | [] => Return None
  | m :: rest =>
      match title m with
      | None => Raise AttributeError
      | Some t =>
          if contains (py_lower sv movie_title) (py_lower sv t)
          then Return (Some m)
          else first_match sv movie_title rest
      end
  end.

Definition likely_theaters (theaters : list theater) : json :=
  match theaters with
  | [] => JStr "No data found"
  | _ => JArr (map (fun t => JStr (name t)) (take 8 theaters))
  end.

(** The tool [find_movie_in_city]. *)
Definition find_movie_in_city (sv : services) (movie_title city : string)
  : M json :=
  do now_playing <- get_now_playing_tmdb sv "IN";
  do found <- (first_match sv movie_title now_playing, []);
  match found with
  | None =>
      ret (JObj [ ("message",
                   JStr (movie_title
                         +:+ " is not currently showing in India or not found.")) ])
  | Some m =>
      do theaters_data <- (let '(d, t) := get_theaters_open sv city 15 in
                           (Return d, t));
      let theaters := theaters_of theaters_data in
      match overview m with
      | None => raise TypeError
      | Some text =>
          ret (JObj [ ("movie", opt_json JStr (title m));
                      ("release_date", opt_json JStr (release_date m));
                      ("overview", JStr (str_take 180 text +:+ "..."));
                      ("city", JStr city);
                      ("likely_theaters", likely_theaters theaters) ])
      end
  end.

(** Case-insensitive substring containment, in words: the lowered title
    is some text, the lowered query, some text. *)
Definition title_matches (sv : services) (movie_title t : string) : Prop :=
  exists a b, py_lower sv t = a +:+ py_lower sv movie_title +:+ b.

(** A movie that the search loop passes over. *)
Definition passed_over (sv : services) (movie_title : string) (m : movie)
  : Prop :=
  exists t, title m = Some t /\ ~ title_matches sv movie_title t.

(** The calls that go to TMDb, and the waits between them. *)
Definition tmdb_call (ev : event) : Prop :=
  match ev with
  | TmdbGet _ _ | Sleep => True
  | _ => False
  end.

(** *** Services used in the examples *)

Definition film (n : Z) (t : string) : tmdb_movie :=
  TmdbMovie (Some n) (Some t) (Some "2025-01-01") (Some "en")
    (Some ("About " +:+ t)) None.

Definition page_one : tmdb_page :=
  TmdbPage [film 1 "Jawan"; film 2 "Leo"; film 3 "Pathaan"; film 4 "Dunki";
            film 5 "Animal"; film 6 "Salaar"; film 7 "Tiger 3"] (Some 2%Z).

Definition page_two : tmdb_page :=
  TmdbPage [film 8 "Fighter"; film 9 "Crew"; film 10 "Kalki 2898 AD";
            film 11 "Stree 2"; film 12 "Leo: The Return"; film 13 "Pushpa 2";
            film 14 "Chhaava"] (Some 2%Z).

Definition cinema (n : string) : element :=
  Element [("amenity", "cinema"); ("name", n)] (Some "18.5") (Some "73.8") None.

Definition nine_cinemas : list element :=
  map cinema ["PVR"; "INOX"; "Cinepolis"; "E-Square"; "City Pride";
              "Victory"; "Rahul"; "Mangala"; "Alka"].

(** TMDb answers both pages; the city has nine cinemas.  The titles of
    the examples are ASCII, where lowering is that of the letters. *)
Definition demo_services : services :=
  Services
    (fun _ page => Return (Response 200
                             (Some (if (page =? 1)%Z then page_one else page_two))))
    (fun _ => Return [("18.52", "73.85")])
    (fun _ _ => Return (Some nine_cinemas))
    lower.

(** TMDb answers the first page and refuses the second. *)
Definition flaky_services : services :=
  Services
    (fun _ page => if (page =? 1)%Z then Return (Response 200 (Some page_one))
                   else Return (Response 503 None))
    (fun _ => Return [("18.52", "73.85")])
    (fun _ _ => Return (Some nine_cinemas))
    lower.

End MovieBot.

(** ** Text operations of the answer handling *)

Module PyText.
Import Py.

(** [s.split(sep)[0]] for a separator that is not empty: the text before
    the first occurrence of [sep], all of [s] when there is none. *)
Fixpoint before (sep s : string) : string :=
  if starts_with sep s then ""
  else
    match s with
    | EmptyString => ""
    | String c t => String c (before sep t)
    end.

(** [s.replace(old, '')] for an [old] that is not empty: the occurrences
    of [old] are taken out from left to right, without overlap.  [skip]
    counts the characters of a found occurrence still to be dropped. *)
Fixpoint remove_from (old : string) (skip : nat) (s : string) : string :=
  match s with
  | EmptyString => ""
  | String c t =>
      match skip with
      | S k => remove_from old k t
      | O =>
          if starts_with old s
          then remove_from old (String.length old - 1) t
          else String c (remove_from old 0 t)
      end
  end.

Definition remove (old s : string) : string := remove_from old 0 s.

(** The characters that [str.strip()] takes off, by code point: those
    for which [str.isspace] holds. *)
Definition whitespace : list N :=
  [9; 10; 11; 12; 13; 28; 29; 30; 31; 32; 133; 160; 5760;
   8192; 8193; 8194; 8195; 8196; 8197; 8198; 8199; 8200; 8201; 8202;
   8232; 8233; 8239; 8287; 12288]%N.

(** The text after the prefix [p], when the text starts with it. *)
Fixpoint drop_prefix (p s : string) : option string :=
  match p with
  | EmptyString => Some s
  | String a p' =>
      match s with
      | EmptyString => None
      | String b s' => if Ascii.eqb a b then drop_prefix p' s' else None
      end
  end.

Fixpoint first_prefix (prefixes : list string) (s : string) : option string :=
  match prefixes with
  | [] => None
  | p :: rest =>
      match drop_prefix p s with
      | Some t => Some t
      | None => first_prefix rest s
      end
  end.

(** The text after a leading whitespace character, if there is one. *)
Definition after_space (s : string) : option string :=
  first_prefix (map utf8 whitespace) s.

(** Leading whitespace is taken off character by character; a text has
    no more characters than bytes, which bounds the number of steps. *)
Fixpoint lstrip_from (fuel : nat) (s : string) : string :=
  match fuel with
  | O => s
  | S fuel' =>
      match after_space s with
      | Some t => lstrip_from fuel' t
      | None => s
      end
  end.

Definition lstrip (s : string) : string := lstrip_from (String.length s) s.

(** A text of whitespace characters only. *)
Definition all_space (s : string) : bool :=
  match lstrip s with
  | EmptyString => true
  | _ => false
  end.

(** The longest prefix that no whitespace ends. *)
Fixpoint rstrip (s : string) : string :=
  match s with
  | EmptyString => ""
  | String c t => if all_space s then "" else String c (rstrip t)
  end.

Definition strip (s : string) : string := rstrip (lstrip s).

(** The number of backticks that a text begins with. *)
Fixpoint ticks (s : string) : nat :=
  match s with
  | EmptyString => 0
  | String c t => if Ascii.eqb c "`" then S (ticks t) else 0
  end.

(** [str(n)] for an integer. *)
Definition decimal (n : Z) : string :=
  String.string_of_list_ascii
    (rev (map BitcoinAgent.digit_char (BitcoinAgent.digits n))).

Definition str_int (n : Z) : string :=
  if (n <? 0)%Z then "-" +:+ decimal (- n) else decimal n.

End PyText.

(** ** The answer handling of the movie agent

    Lines 230 to 252 and 267 to 272 of [webScrapper_chatbot.py]; the
    Streamlit script cleans the text in the same way. *)

Module ChatbotAnswer.
Import Py PyText.

(** An item of a message content given as a list: a dictionary whose
    [type] is [text], with its [text] when it has one, or anything else. *)
Inductive part : Type :=
| TextPart (text : option string)
| OtherPart.

(** The three shapes of [msg.content] that the loop tells apart; for any
    other value the loop takes its [str]. *)
Inductive content : Type :=
| ContentList (parts : list part)
| ContentStr (s : string)
| ContentOther (str_of : string).

Fixpoint text_of_parts (text_output : string) (parts : list part) : string :=
  match parts with
  | [] => text_output
  | TextPart t :: rest => text_of_parts (text_output +:+ default "" t) rest
  | OtherPart :: rest => text_of_parts text_output rest
  end.

Definition extract_text (c : content) : string :=
  match c with
  | ContentList parts => text_of_parts "" parts
  | ContentStr s => s
  | ContentOther str_of => str_of
  end.

(** The cleaning chain: both replacements, both cuts, then [strip]. *)
Definition clean_text (text_output : string) : string :=
  strip
    (before "safetyRatings"
       (before "signature"
          (remove "```" (remove "```json" text_output)))).

(** The line printed for a tool result. *)
Definition observation (tool_content : string) : string :=
  str_take 200 tool_content
  +:+ (if (200 <? len tool_content) then "..." else "").

End ChatbotAnswer.

(** ** The answer handling of the price agent

    Lines 78 to 80 of [Bitcoin_predictor_Agent(ReAct).py]. *)

Module BitcoinAnswer.
Import Py PyText.

Definition cut_at_inr (final_answer : string) : string :=
  if contains "INR" final_answer
  then before "INR" final_answer +:+ "INR"
  else final_answer.

End BitcoinAnswer.

(** ** Movie_Scrapper_bot/tmdb.py *)

Module Tmdb.
Import Py PyText.

(** What the script can raise: the exceptions of the calls it makes, its
    own [RuntimeError], the use of a local name that was never bound, and
    the exit requested by [sys.exit]. *)
Inductive raised : Type :=
| Exn (e : exn)
| RuntimeError (msg : string)
| UnboundLocalError (name : string)
| SystemExit (code : Z).

(** A run returns, raises, or is still in its loop when the fuel given to
    [while True] is used up. *)
Inductive result (A : Type) : Type :=
| Done (a : A)
| Failed (r : raised)
| Running.

Arguments Done {A} a.
Arguments Failed {A} r.
Arguments Running {A}.

(** An item of [results] as TMDb sends it; numbers that are only passed
    on are kept as their text. *)
Record item := Item {
  i_id : option Z;
  i_title : option string;
  i_original_title : option string;
  i_release_date : option string;
  i_original_language : option string;
  i_overview : option string;
  i_popularity : option string
}.

Record movie := Movie {
  id : option Z;
  title : option string;
  original_title : option string;
  release_date : option string;
  language : option string;
  overview : option string;
  tmdb_popularity : option string
}.

Record page := Page {
  results : list item;
  total_pages : option Z
}.

(** A place as Google sends it; [p_location] is [geometry.location]. *)
Record raw_place := RawPlace {
  p_name : option string;
  p_formatted_address : option string;
  p_rating : option string;
  p_user_ratings_total : option string;
  p_location : option string;
  p_place_id : option string
}.

Record place := Place {
  name : option string;
  address : option string;
  rating : option string;
  user_ratings_total : option string;
  location : option string;
  place_id : option string
}.

(** An HTTP answer with its status, its text and, when the text is JSON,
    the part of it that the script reads. *)
Record response (B : Type) := Response {
  status_code : Z;
  text : string;
  json_body : option B
}.

Arguments Response {B} status_code text json_body.
Arguments status_code {B} r.
Arguments text {B} r.
Arguments json_body {B} r.

(** TMDb by key, language, region and page; Google Places by query and
    key, answering with the list under [results]. *)
Record services := Services {
  tmdb_get : string -> string -> string -> Z -> outcome (response page);
  google_get : string -> string -> outcome (response (list raw_place))
}.

Inductive event : Type :=
| TmdbGet (api_key language region : string) (page : Z)
| Sleep
| GoogleGet (query key : string)
| Print (line : string)
| PrintFailure (what : string) (e : raised)
| PrintMovieList (movies : list movie)
| PrintTheaters (places : list place).

Definition M (A : Type) : Type := result A * list event.

Definition ret {A} (a : A) : M A := (Done a, []).

Definition raise {A} (r : raised) : M A := (Failed r, []).

Definition bind {A B} (m : M A) (k : A -> M B) : M B :=
  match m with
  | (Done a, t) => let '(r, t') := k a in (r, t ++ t')
  | (Failed r, t) => (Failed r, t)
  | (Running, t) => (Running, t)
  end.

Notation "'do' x <- m ; k" := (bind m (fun x => k))
  (at level 10, x name, m at level 100, k at level 200).

(** An outside call: it is recorded, and what it raises is passed on. *)
Definition call {A} (ev : event) (r : outcome A) : M A :=
  match r with
  | Return a => (Done a, [ev])
  | Raise e => (Failed (Exn e), [ev])
  end.

Definition emit (ev : event) : M unit := (Done tt, [ev]).

(** [try: m except Exception as e: handler e]: [SystemExit] is no
    [Exception] and passes through. *)
Definition try_except {A} (m : M A) (handler : raised -> M A) : M A :=
  match m with
  | (Failed (SystemExit code), t) => (Failed (SystemExit code), t)
  | (Failed r, t) => let '(r', t') := handler r in (r', t ++ t')
  | other => other
  end.

Definition TMDB_API_KEY : string := "6391415fc15934ab1bd4304bf9249d85".
Definition REGION : string := "IN".
Definition CITY_NAME : string := "Pune".
Definition TMDB_LANGUAGE : string := "en-US".

Definition movie_of (m : item) : movie :=
  Movie (i_id m) (i_title m) (i_original_title m) (i_release_date m)
    (i_original_language m) (i_overview m) (i_popularity m).

(** The body of [while True], from page [page] on, with the movies read
    so far. *)
Fixpoint pages_loop (sv : services) (api_key region language : string)
  (fuel : nat) (page : Z) (gathered : list movie) : M (list movie) :=
  match fuel with
  | O => (Running, [])
  | S fuel' =>
      do r <- call (TmdbGet api_key language region page)
                (tmdb_get sv api_key language region page);
      if negb (status_code r =? 200)%Z
      then raise (RuntimeError ("TMDb API error " +:+ str_int (status_code r)
                                +:+ ": " +:+ str_take 400 (text r)))
      else
        match json_body r with
        | None => raise (Exn JSONDecodeError)
        | Some data =>
            let gathered' := gathered ++ map movie_of (results data) in
            if (default 1 (total_pages data) <=? page)%Z then ret gathered'
            else
              do _ <- emit Sleep;
              pages_loop sv api_key region language fuel' (page + 1) gathered'
        end
  end.

Definition get_now_playing_tmdb (sv : services) (fuel : nat)
  (api_key region language : string) : M (list movie) :=
  match api_key with
  | EmptyString =>
      raise (Exn (ValueError
        "TMDB_API_KEY is required. Set TMDB_API_KEY environment variable."))
  | _ => pages_loop sv api_key region language fuel 1 []
  end.

Definition place_of (p : raw_place) : place :=
  Place (p_name p) (p_formatted_address p) (p_rating p)
    (p_user_ratings_total p) (p_location p) (p_place_id p).

Definition get_theaters_google (sv : services) (city api_key : string)
  (limit : nat) : M (list place) :=
  match api_key with
  | EmptyString =>
      raise (Exn (ValueError "GOOGLE_API_KEY is required for theater lookup."))
  | _ =>
      do r <- call (GoogleGet ("movie theaters in " +:+ city) api_key)
                (google_get sv ("movie theaters in " +:+ city) api_key);
      if negb (status_code r =? 200)%Z
      then raise (RuntimeError ("Google Places error "
                                +:+ str_int (status_code r)
                                +:+ ": " +:+ str_take 400 (text r)))
      else
        match json_body r with
        | None => raise (Exn JSONDecodeError)
        | Some found => ret (map place_of (take limit found))
        end
  end.

(** [main], with the value of the environment variable [GOOGLE_API_KEY].
    The local name [theaters] is bound only when the lookup returned. *)
Definition main (sv : services) (GOOGLE_API_KEY : option string)
  (fuel : nat) : M (list movie * list place) :=
  if negb (truthy_str (Some TMDB_API_KEY)) then
    do _ <- emit (Print "ERROR: TMDB_API_KEY environment variable not set.");
    do _ <- emit (Print "Get a key from https://www.themoviedb.org/settings/api and set TMDB_API_KEY.");
    raise (SystemExit 1)
  else
    do _ <- emit (Print "Fetching now-playing movies from TMDb (region= IN ) ...");
    do movies <- try_except
                   (get_now_playing_tmdb sv fuel TMDB_API_KEY REGION TMDB_LANGUAGE)
                   (fun e =>
                      do _ <- emit (PrintFailure "Failed to fetch TMDb data:" e);
                      raise (SystemExit 1));
    do _ <- emit (PrintMovieList movies);
    do theaters <-
      (if truthy_str GOOGLE_API_KEY then
         do _ <- emit (Print (nl +:+ "Fetching theaters in Pune using Google Places..."));
         try_except
           (do found <- get_theaters_google sv CITY_NAME
                          (default "" GOOGLE_API_KEY) 20;
            do _ <- emit (PrintTheaters found);
            ret (Some found))
           (fun e =>
              do _ <- emit (PrintFailure "Failed to fetch Google Places data:" e);
              ret None)
       else
         do _ <- emit (Print (nl +:+ "(Google Places API key not provided — skipping theater lookup.)"));
         ret None);
    if truthy_str GOOGLE_API_KEY then
      match theaters with
      | Some found => ret (movies, found)
      | None => raise (UnboundLocalError "theaters")
      end
    else ret (movies, []).

(** The calls of a fetch that reads [n] pages from page [start] on: a
    request per page, a wait between two requests. *)
Fixpoint page_calls (api_key language region : string) (start : Z) (n : nat)
  : list event :=
  match n with
  | O => []
  | S O => [TmdbGet api_key language region start]
  | S n' =>
      TmdbGet api_key language region start :: Sleep
      :: page_calls api_key language region (start + 1) n'
  end.

(** A page that TMDb answers with status 200 and a JSON body. *)
Definition served (sv : services) (api_key language region : string)
  (number : Z) (p : page) : Prop :=
  exists r,
    tmdb_get sv api_key language region number = Return r
    /\ status_code r = 200%Z
    /\ json_body r = Some p.

(** What the two fetches raise is never the exit of [sys.exit], and the
    movie fetch asks TMDb only. *)
Definition no_exit (r : raised) : Prop :=
  match r with
  | SystemExit _ => False
  | _ => True
  end.

Definition tmdb_only (ev : event) : Prop :=
  match ev with
  | TmdbGet _ _ _ _ | Sleep => True
  | _ => False
  end.

(** *** Services used in the examples *)

Definition film (n : Z) (t : string) : item :=
  Item (Some n) (Some t) (Some t) (Some "2025-01-01") (Some "en")
    (Some ("About " +:+ t)) (Some "12.5").

Definition three_pages : list page :=
  [ Page [film 1 "Jawan"; film 2 "Leo"] (Some 3%Z);
    Page [film 3 "Pathaan"] (Some 3%Z);
    Page [film 4 "Dunki"; film 5 "Animal"] (Some 3%Z) ].

(** TMDb serves the three pages; Google Places refuses every request. *)
Definition demo_services : services :=
  Services
    (fun _ _ _ page =>
       match three_pages !! Z.to_nat (page - 1) with
       | Some p => Return (Response 200 "" (Some p))
       | None => Return (Response 404 "no such page" None)
       end)
    (fun _ _ => Return (Response 403 "REQUEST_DENIED" None)).

(** TMDb refuses the second page. *)
Definition refusing_services : services :=
  Services
    (fun _ _ _ page =>
       if (page =? 1)%Z
       then Return (Response 200 "" (Some (Page [film 1 "Jawan"] (Some 2%Z))))
       else Return (Response 429 "slow down" None))
    (fun _ _ => Return (Response 200 ""
                          (Some [RawPlace (Some "PVR") (Some "FC Road") None
                                   None None (Some "p1")]))).

End Tmdb.

(** ** Further notions for the sessions and the builds of langchainRAG.py *)

Module LangchainRAGNotions.
Import Py VectorStore LangchainRAG.

(** The outside calls of a session: for each question a retrieval, then
    a generation with the prompt of that question and of the documents
    retrieved for it. *)
Fixpoint session_calls (sv : services) (questions : list string)
  (contexts : list (list document)) : list event :=
  match questions, contexts with
  | q :: qs, c :: cs =>
      Retrieve q :: Generate (prompt_text sv q c) :: session_calls sv qs cs
  | _, _ => []
  end.

(** The calls of the loaders. *)
Definition loader_call (ev : event) : Prop :=
  match ev with
  | DirectoryLoad _ _ | WebLoad _ => True
  | _ => False
  end.

(** A directory whose text files cannot be read, and a retriever that
    is down. *)
Definition broken_services : services :=
  Services (fun p => String.eqb p "docs")
    (fun _ glob => if String.eqb glob "**/*.txt"
                   then Raise (ExternalError "invalid start byte")
                   else Return [])
    (web_load demo_services) (split_with demo_services)
    (load_embeddings demo_services) (connect_cloud demo_services)
    (store_fault demo_services)
    (fun _ => Raise (ExternalError "index unreachable"))
    (render_docs demo_services) (llm demo_services)
    (isprintable demo_services).

(** A cloud project that already holds another collection, and the world
    after a build in it. *)
Definition other_collection : cloud document :=
  Cloud {[ "Other_store" := [(0, Document "kept" "old.txt")] ]} 1.

Definition beside_other_collection : world :=
  (build_vector_store demo_services "docs" (World other_collection [])).2.

End LangchainRAGNotions.

(** ** Further services for the examples of the movie agent *)

Module MovieBotCases.
Import Py MovieBot.

(** An entry without a title, and a movie without an overview. *)
Definition untitled : tmdb_movie :=
  TmdbMovie (Some 2%Z) None (Some "2025-01-01") (Some "en")
    (Some "An untitled entry") None.

Definition leo_without_overview : tmdb_movie :=
  TmdbMovie (Some 3%Z) (Some "Leo") (Some "2025-01-01") (Some "en") None None.

(** One page with the untitled entry before [Leo]. *)
Definition untitled_services : services :=
  Services
    (fun _ _ => Return (Response 200
                          (Some (TmdbPage [film 1 "Jawan"; untitled; film 3 "Leo"]
                                   (Some 1%Z)))))
    (fun _ => Return [("18.52", "73.85")])
    (fun _ _ => Return (Some nine_cinemas))
    lower.

(** One page on which [Leo] has no overview. *)
Definition sparse_services : services :=
  Services
    (fun _ _ => Return (Response 200
                          (Some (TmdbPage [film 1 "Jawan"; leo_without_overview]
                                   (Some 1%Z)))))
    (fun _ => Return [("18.52", "73.85")])
    (fun _ _ => Return (Some nine_cinemas))
    lower.

(** The lowering of the ASCII letters and of the capital letters of
    Latin-1 (U+00C0 to U+00DE, the multiplication sign apart), whose
    lower case is 32 places further. *)
Fixpoint lower_latin1 (s : string) : string :=
  match s with
  | EmptyString => ""
  | String a t =>
      match t with
      | String b t' =>
          let n := nat_of_ascii b in
          if (nat_of_ascii a =? 195) && (128 <=? n) && (n <=? 158)
             && negb (n =? 151)
          then String a (String (ascii_of_nat (n + 32)) (lower_latin1 t'))
          else String (lower_ascii a) (lower_latin1 t)
      | EmptyString => String (lower_ascii a) ""
      end
  end.

(** One page with a title outside ASCII. *)
Definition accented_services : services :=
  Services
    (fun _ _ => Return (Response 200
                          (Some (TmdbPage [film 1 "Pokémon Detective";
                                           film 2 "Leo"] (Some 1%Z)))))
    (fun _ => Return [("18.52", "73.85")])
    (fun _ _ => Return (Some nine_cinemas))
    lower_latin1.

(** TMDb answers the first page; the request for the second times out. *)
Definition timeout_services : services :=
  Services
    (fun _ page => if (page =? 1)%Z then Return (Response 200 (Some page_one))
                   else Raise (ExternalError "read timed out"))
    (fun _ => Return [("18.52", "73.85")])
    (fun _ _ => Return (Some nine_cinemas))
    lower.

End MovieBotCases.

(** ** The answer handling of RAG_Agent.py

    Lines 56 to 63: the text of the last message, joined from the items
    of a content list. *)

Module RagAgent.
Import Py PyText ChatbotAnswer.

(** An item of a content list, as LangChain types it: a dictionary, with
    the texts that it has under [type] and [text], or a plain string,
    which is no dictionary and cannot be indexed by a key. *)
Inductive entry : Type :=
| Dict (type text : option string)
| NotDict.

(** [[c["text"] for c in content if c["type"] == "text"]]: the type of
    every item is read, the text of those of type [text]; a missing key
    raises [KeyError], an item that is no dictionary [TypeError]. *)
Fixpoint texts (content : list entry) : outcome (list string) :=
  match content with
  | [] => Return []
  | NotDict :: _ => Raise TypeError
  | Dict None _ :: _ => Raise (KeyError "type")
  | Dict (Some ty) text :: rest =>
      if String.eqb ty "text" then
        match text with
        | None => Raise (KeyError "text")
        | Some t =>
            match texts rest with
            | Return ts => Return (t :: ts)
            | Raise e => Raise e
            end
        end
      else texts rest
  end.

(** The content of the last message is a list of items or a text. *)
Inductive content : Type :=
| Items (items : list entry)
| Text (s : string).

Definition text_output (c : content) : outcome string :=
  match c with
  | Items items =>
      match texts items with
      | Return ts => Return (join "" ts)
      | Raise e => Raise e
      end
  | Text s => Return s
  end.

(** The text printed after [A:]. *)
Definition printed_answer (c : content) : outcome string :=
  match text_output c with
  | Return s => Return (strip s)
  | Raise e => Raise e
  end.

(** The same item as the loop of the movie agent sees it: that loop
    skips what is no dictionary, asks with [get], and takes the text of
    the items of type [text]. *)
Definition part_of (c : entry) : part :=
  match c with
  | Dict (Some ty) text =>
      if String.eqb ty "text" then TextPart text else OtherPart
  | _ => OtherPart
  end.

(** What reading an item raises, if anything: [None] for a dictionary
    that has a type, and a text when its type is [text]. *)
Definition unreadable (c : entry) : option exn :=
  match c with
  | NotDict => Some TypeError
  | Dict None _ => Some (KeyError "type")
  | Dict (Some ty) text =>
      if String.eqb ty "text" then
        match text with
        | None => Some (KeyError "text")
        | Some _ => None
        end
      else None
  end.

End RagAgent.

(** * Part II: properties *)

(** ** Strings *)

Module PyFacts.
Import Py.

Lemma starts_with_app p t : starts_with p (p +:+ t) = true.
Proof.
  induction p as [|a p IH]; simpl; [reflexivity|].
  rewrite Ascii.eqb_refl. exact IH.
Qed.

Lemma starts_with_inv p s :
  starts_with p s = true -> exists t, s = p +:+ t.
Proof.
  revert s; induction p as [|a p IH]; intros s H.
  - exists s; reflexivity.
  - destruct s as [|b s]; simpl in H; [discriminate|].
    apply andb_true_iff in H as [Hab Hp].
    apply Ascii.eqb_eq in Hab as ->.
    destruct (IH _ Hp) as [t ->]. exists t; reflexivity.
Qed.

Lemma contains_unfold needle hay :
  contains needle hay
  = starts_with needle hay
    || match hay with
       | EmptyString => false
       | String _ t => contains needle t
       end.
Proof. destruct hay; reflexivity. Qed.

(** [contains] is substring containment. *)
Lemma contains_spec needle hay :
  contains needle hay = true <-> exists a b, hay = a +:+ needle +:+ b.
Proof.
  split.
  - induction hay as [|c hay IH]; simpl; intros H.
    + rewrite orb_false_r in H. apply starts_with_inv in H as [t Ht].
      exists "", t. exact Ht.
    + apply orb_true_iff in H as [H|H].
      * apply starts_with_inv in H as [t Ht]. exists "", t. exact Ht.
      * destruct (IH H) as (a & b & ->). exists (String c a), b. reflexivity.
  - intros (a & b & ->). induction a as [|c a IH].
    + change (contains needle (needle +:+ b) = true).
      rewrite contains_unfold, starts_with_app. reflexivity.
    + change (contains needle (String c (a +:+ needle +:+ b)) = true).
      simpl. rewrite IH. apply orb_true_r.
Qed.

(** [repr] on the three shapes of text: plain, with a single quote, with
    both quotes. *)
Example repr_plain : repr (fun _ => true) "Why is that?" = "'Why is that?'".
Proof. reflexivity. Qed.

Example repr_single_quote :
  repr (fun _ => true) "it's" = String dquote "it's" +:+ String dquote "".
Proof. reflexivity. Qed.

Example repr_both_quotes :
  repr (fun _ => true) (String dquote "it's")
  = "'" +:+ String dquote "it\'s'".
Proof. reflexivity. Qed.

(** A no-break space, a zero-width space and a tag character are not
    printable and are escaped; the accented letter and the emoji are
    copied. *)
Example repr_outside_ascii :
  repr (fun cp => negb ((cp =? 160) || (cp =? 8203) || (cp =? 917505))%N)
    ("a" +:+ utf8 160 +:+ "é" +:+ utf8 8203 +:+ "😀" +:+ utf8 917505 +:+ "z")
  = "'a\xa0é\u200b😀\U000e0001z'".
Proof. vm_compute. reflexivity. Qed.

(** The encoder against characters written out, and lengths and slices
    that count characters. *)
Example utf8_literals :
  utf8 233 = "é" /\ utf8 8377 = "₹" /\ utf8 128512 = "😀"
  /\ code_point "é" = 233%N /\ code_point "₹" = 8377%N
  /\ code_point "😀" = 128512%N.
Proof. repeat split; reflexivity. Qed.

Example len_counts_characters :
  len "Pokémon" = 7 /\ str_take 4 "Pokémon" = "Poké"
  /\ len (str_take 400 (String.concat "" (repeat "é" 500))) = 400.
Proof. repeat split; vm_compute; reflexivity. Qed.

Lemma byte_embedding n : (n < 256)%N -> N_of_ascii (utf8_byte n) = n.
Proof. apply N_ascii_embedding. Qed.

(** Decoding undoes encoding. *)
Lemma code_point_utf8 cp : (cp < 1114112)%N -> code_point (utf8 cp) = cp.
Proof.
  intros H. unfold utf8.
  pose proof (N.mod_lt cp 64 ltac:(discriminate)) as M0.
  pose proof (N.mod_lt (cp / 64) 64 ltac:(discriminate)) as M1.
  pose proof (N.mod_lt (cp / 4096) 64 ltac:(discriminate)) as M2.
  pose proof (N.div_mod cp 64 ltac:(discriminate)) as D0.
  pose proof (N.div_mod (cp / 64) 64 ltac:(discriminate)) as D1.
  pose proof (N.div_mod (cp / 4096) 64 ltac:(discriminate)) as D2.
  rewrite N.Div0.div_div in D1. change (64 * 64)%N with 4096%N in D1.
  rewrite N.Div0.div_div in D2. change (4096 * 64)%N with 262144%N in D2.
  set (q1 := (cp / 64)%N) in *. set (r0 := (cp mod 64)%N) in *.
  set (q2 := (cp / 4096)%N) in *. set (r1 := (q1 mod 64)%N) in *.
  set (q3 := (cp / 262144)%N) in *. set (r2 := (q2 mod 64)%N) in *.
  clearbody q1 r0 q2 r1 q3 r2.
  destruct (N.ltb_spec cp 128); [|destruct (N.ltb_spec cp 2048);
    [|destruct (N.ltb_spec cp 65536)]]; cbn [code_point].
  - apply byte_embedding. lia.
  - rewrite !byte_embedding by lia. lia.
  - rewrite !byte_embedding by lia. lia.
  - rewrite !byte_embedding by lia. lia.
Qed.

Example lower_mixed : lower "LeO: The Return" = "leo: the return".
Proof. reflexivity. Qed.

End PyFacts.

(** ** The vector index service *)

Module VectorStoreFacts.
Import VectorStore.

Section EntryFacts.
Context {D : Type}.
Implicit Types (c : cloud D) (docs : list D).









End EntryFacts.

End VectorStoreFacts.

(** ** langchainRAG.py *)

Module LangchainRAGFacts.
Import Py VectorStore LangchainRAG.

(** Formatting the prompt never fails, and it yields [prompt_text]. *)
Lemma format_prompt sv messages query context :
  format_template prompt (chain_inputs sv messages query context)
  = Return (prompt_text sv query context).
Proof. reflexivity. Qed.

(** The chain does not look at the messages it is given. *)
Lemma rag_chain_invoke_ignores_messages sv messages messages' query w :
  rag_chain_invoke sv messages query w = rag_chain_invoke sv messages' query w.
Proof. reflexivity. Qed.

Lemma rag_chain_invoke_returns sv messages query context answer w :
  retrieve sv query = Return context ->
  llm sv (prompt_text sv query context) = Return answer ->
  rag_chain_invoke sv messages query w
  = (Return answer,
     World (store w)
       (log w ++ [Retrieve query]
        ++ [Generate (prompt_text sv query context)])).
Proof.
  intros Hr Hl. unfold rag_chain_invoke, bind, call.
  rewrite Hr, format_prompt. simpl. rewrite Hl, <- app_assoc. reflexivity.
Qed.

Lemma rag_chain_invoke_generation_fails sv messages query context e w :
  retrieve sv query = Return context ->
  llm sv (prompt_text sv query context) = Raise e ->
  rag_chain_invoke sv messages query w
  = (Raise e,
     World (store w)
       (log w ++ [Retrieve query]
        ++ [Generate (prompt_text sv query context)])).
Proof.
  intros Hr Hl. unfold rag_chain_invoke, bind, call.
  rewrite Hr, format_prompt. simpl. rewrite Hl, <- app_assoc. reflexivity.
Qed.

(** C1.  In a session of two questions the memory holds the first
    question and its answer when the second is asked, and the chain does
    compute their text, yet the prompt sent for the second question holds
    neither of them: the template names no variable for the memory. *)
Theorem second_prompt_omits_first_turn :
  exists p1 p2 w,
    chat_loop demo_services
      ["What color is the sky?"; "Why is that?"; "exit"] [] empty_world
    = (Closed,
       [HumanMessage "What color is the sky?"; AIMessage "It is blue.";
        HumanMessage "Why is that?"; AIMessage "It is blue."], w)
    /\ log w = [Retrieve "What color is the sky?"; Generate p1;
                Retrieve "Why is that?"; Generate p2]
    /\ p2 = prompt_text demo_services "Why is that?" [sky]
    /\ lookup_input "chat_history"
         (chain_inputs demo_services
            [HumanMessage "What color is the sky?"; AIMessage "It is blue."]
            "Why is that?" [sky])
       = Some ("Human: What color is the sky?" +:+ nl +:+ "AI: It is blue.")
    /\ contains "What color is the sky?" p2 = false
    /\ contains "It is blue." p2 = false.
Proof.
  eexists _, _, _. split; [reflexivity|].
  split; [reflexivity|].
  split; [reflexivity|].
  split; [reflexivity|].
  split; vm_compute; reflexivity.
Qed.

(** A session in which the model rejects the first question: the loop
    ends there with the error, the memory is still empty, and the second
    question is never looked at. *)
Lemma failed_generation_ends_session :
  exists w,
    chat_loop failing_services ["What color is the sky?"; "Why is that?"; "exit"]
      [] empty_world
    = (Crashed (ExternalError "quota exceeded"), [], w)
    /\ log w = [Retrieve "What color is the sky?";
                Generate (prompt_text failing_services
                            "What color is the sky?" [sky])]
    /\ Retrieve "Why is that?" ∉ log w.
Proof.
  eexists. split; [reflexivity|]. split; [reflexivity|].
  simpl. intros H. apply list_elem_of_In in H. simpl in H.
  destruct H as [H|[H|[]]]; discriminate H.
Qed.

(** C3, as the code has it.  When the model call of a question raises,
    nothing is appended to the memory, and the loop ends there with that
    error: the questions typed after it are not read. *)
Theorem failed_generation_keeps_memory sv query rest context e history w :
  is_exit query = false ->
  retrieve sv query = Return context ->
  llm sv (prompt_text sv query context) = Raise e ->
  chat_loop sv (query :: rest) history w
  = (Crashed e, history,
     World (store w)
       (log w ++ [Retrieve query]
        ++ [Generate (prompt_text sv query context)])).
Proof.
  intros Hx Hr Hl. simpl. rewrite Hx.
  rewrite (rag_chain_invoke_generation_fails _ _ _ _ _ _ Hr Hl).
  reflexivity.
Qed.

Lemma failed_generation_keeps_memory_witness :
  is_exit "What color is the sky?" = false
  /\ retrieve failing_services "What color is the sky?" = Return [sky]
  /\ llm failing_services
       (prompt_text failing_services "What color is the sky?" [sky])
     = Raise (ExternalError "quota exceeded")
  /\ chat_loop failing_services ["What color is the sky?"; "Why is that?"]
       [HumanMessage "Hello"; AIMessage "Hi"] empty_world
     = (Crashed (ExternalError "quota exceeded"),
        [HumanMessage "Hello"; AIMessage "Hi"],
        World (store empty_world)
          (log empty_world ++ [Retrieve "What color is the sky?"]
           ++ [Generate (prompt_text failing_services
                           "What color is the sky?" [sky])])).
Proof.
  split; [reflexivity|]. split; [reflexivity|]. split; [reflexivity|].
  apply (failed_generation_keeps_memory failing_services
           "What color is the sky?" ["Why is that?"] [sky]
           (ExternalError "quota exceeded")
           [HumanMessage "Hello"; AIMessage "Hi"] empty_world);
    reflexivity.
Defined.

Lemma alternating_turns_length questions answers :
  length answers = length questions ->
  length (alternating_turns questions answers) = 2 * length questions.
Proof.
  revert answers; induction questions as [|q qs IH]; intros [|a ans] H;
    simpl in *; try lia.
  rewrite IH by lia. lia.
Qed.

Lemma alternating_turns_lookup questions answers k q a :
  questions !! k = Some q ->
  answers !! k = Some a ->
  alternating_turns questions answers !! (2 * k) = Some (HumanMessage q)
  /\ alternating_turns questions answers !! (2 * k + 1) = Some (AIMessage a).
Proof.
  revert questions answers; induction k as [|k IH];
    intros [|q' qs] [|a' ans] Hq Ha; try discriminate.
  - injection Hq as ->. injection Ha as ->. split; reflexivity.
  - replace (2 * S k) with (S (S (2 * k))) by lia.
    simpl in Hq, Ha. apply (IH qs ans Hq Ha).
Qed.

(** A run of answered questions extends the memory by their turns. *)
Lemma chat_loop_successful sv questions :
  forall answers history w rest,
    Forall (fun q => is_exit q = false) questions ->
    Forall2 (answered sv) questions answers ->
    exists w',
      chat_loop sv (questions ++ rest) history w
      = chat_loop sv rest (history ++ alternating_turns questions answers) w'.
Proof.
  induction questions as [|q qs IH]; intros answers history w rest Hx Hans.
  - apply Forall2_nil_inv_l in Hans as ->. exists w.
    simpl. rewrite app_nil_r. reflexivity.
  - apply Forall2_cons_inv_l in Hans as (a & answers' & Hqa & Hans & ->).
    apply Forall_cons in Hx as [Hq Hqs].
    destruct Hqa as (context & Hr & Hl).
    destruct (IH answers' (history ++ [HumanMessage q; AIMessage a])
                (World (store w)
                   (log w ++ [Retrieve q]
                    ++ [Generate (prompt_text sv q context)])) rest Hqs Hans)
      as (w' & Hloop).
    exists w'. cbn [app chat_loop]. rewrite Hq.
    rewrite (rag_chain_invoke_returns _ _ _ _ _ _ Hr Hl).
    rewrite Hloop. cbn [alternating_turns]. rewrite <- app_assoc. reflexivity.
Qed.

(** Where the session stops, the loop hands back the memory it has. *)
Lemma chat_loop_stops sv stop history w :
  stops sv stop -> (chat_loop sv stop history w).1.2 = history.
Proof.
  destruct stop as [|query rest]; intros H; [reflexivity|].
  cbn [chat_loop]. destruct (is_exit query) eqn:Hx; [reflexivity|].
  unfold rag_chain_invoke, bind, call.
  destruct H as [H|[(e & Hr)|(context & e & Hr & Hl)]]; [congruence| |].
  - rewrite Hr. reflexivity.
  - rewrite Hr, format_prompt. cbn. rewrite Hl. reflexivity.
Qed.

(** C4.  The memory that the loop holds when a session stops after [N]
    completed queries is the memory it started with followed by exactly
    [2 * N] turns: the [k]-th question as a user turn and, right after it,
    the answer the model gave to it as an assistant turn.  This is so
    however the session stops: at the end of the input, at an exit word,
    or at a question that fails and appends nothing. *)
Theorem memory_after_successful_queries sv questions answers stop history w :
  Forall (fun q => is_exit q = false) questions ->
  Forall2 (answered sv) questions answers ->
  stops sv stop ->
  (chat_loop sv (questions ++ stop) history w).1.2
  = history ++ alternating_turns questions answers
  /\ length (chat_loop sv (questions ++ stop) history w).1.2
     = length history + 2 * length questions
  /\ forall k q a,
      questions !! k = Some q ->
      answers !! k = Some a ->
      (chat_loop sv (questions ++ stop) history w).1.2
        !! (length history + 2 * k) = Some (HumanMessage q)
      /\ (chat_loop sv (questions ++ stop) history w).1.2
           !! (length history + 2 * k + 1) = Some (AIMessage a).
Proof.
  intros Hx Hans Hstop.
  destruct (chat_loop_successful sv questions answers history w stop Hx Hans)
    as (w' & Hloop).
  rewrite Hloop, (chat_loop_stops sv stop _ w' Hstop).
  split; [reflexivity|]. split.
  - rewrite length_app, alternating_turns_length; [reflexivity|].
    symmetry. exact (Forall2_length _ _ _ Hans).
  - intros k q a Hq Ha.
    destruct (alternating_turns_lookup questions answers k q a Hq Ha)
      as [Hh Hai].
    split.
    + rewrite lookup_app_r by lia.
      replace (length history + 2 * k - length history) with (2 * k) by lia.
      exact Hh.
    + rewrite lookup_app_r by lia.
      replace (length history + 2 * k + 1 - length history) with (2 * k + 1)
        by lia.
      exact Hai.
Qed.

Lemma memory_after_successful_queries_witness :
  Forall (fun q => is_exit q = false) ["What color is the sky?"; "Why is that?"]
  /\ Forall2 (answered demo_services)
       ["What color is the sky?"; "Why is that?"]
       ["It is blue."; "It is blue."]
  /\ stops demo_services ["exit"; "Is anyone there?"]
  /\ (chat_loop demo_services
        (["What color is the sky?"; "Why is that?"]
         ++ ["exit"; "Is anyone there?"])
        [HumanMessage "Hello"; AIMessage "Hi"] empty_world).1.2
     = [HumanMessage "Hello"; AIMessage "Hi"]
       ++ alternating_turns ["What color is the sky?"; "Why is that?"]
            ["It is blue."; "It is blue."]
  /\ length (chat_loop demo_services
               (["What color is the sky?"; "Why is that?"]
                ++ ["exit"; "Is anyone there?"])
               [HumanMessage "Hello"; AIMessage "Hi"] empty_world).1.2
     = 2 + 2 * 2
  /\ forall k q a,
      ["What color is the sky?"; "Why is that?"] !! k = Some q ->
      ["It is blue."; "It is blue."] !! k = Some a ->
      (chat_loop demo_services
         (["What color is the sky?"; "Why is that?"]
          ++ ["exit"; "Is anyone there?"])
         [HumanMessage "Hello"; AIMessage "Hi"] empty_world).1.2
        !! (2 + 2 * k) = Some (HumanMessage q)
      /\ (chat_loop demo_services
            (["What color is the sky?"; "Why is that?"]
             ++ ["exit"; "Is anyone there?"])
            [HumanMessage "Hello"; AIMessage "Hi"] empty_world).1.2
           !! (2 + 2 * k + 1) = Some (AIMessage a).
Proof.
  assert (Hx : Forall (fun q => is_exit q = false)
                 ["What color is the sky?"; "Why is that?"])
    by (repeat constructor).
  assert (Hans : Forall2 (answered demo_services)
                   ["What color is the sky?"; "Why is that?"]
                   ["It is blue."; "It is blue."])
    by (repeat constructor; exists [sky]; split; reflexivity).
  assert (Hstop : stops demo_services ["exit"; "Is anyone there?"])
    by (left; reflexivity).
  split; [exact Hx|]. split; [exact Hans|]. split; [exact Hstop|].
  exact (memory_after_successful_queries demo_services
           ["What color is the sky?"; "Why is that?"]
           ["It is blue."; "It is blue."] ["exit"; "Is anyone there?"]
           [HumanMessage "Hello"; AIMessage "Hi"] empty_world Hx Hans Hstop).
Defined.

(** A session that stops at a question the model rejects: the memory
    holds the turns of the question answered before it, and nothing of
    the rejected one. *)
Example memory_before_rejected_question :
  (chat_loop
     (Services (path_exists demo_services) (directory_load demo_services)
        (web_load demo_services) (split_with demo_services)
        (load_embeddings demo_services) (connect_cloud demo_services)
        (store_fault demo_services) (retrieve demo_services)
        (render_docs demo_services)
        (fun p => if contains "Why" p then Raise (ExternalError "quota exceeded")
                  else Return "It is blue.")
        (isprintable demo_services))
     ["What color is the sky?"; "Why is that?"; "exit"] [] empty_world).1
  = (Crashed (ExternalError "quota exceeded"),
     [HumanMessage "What color is the sky?"; AIMessage "It is blue."]).
Proof. reflexivity. Qed.

(** The memory of the two-question session, turn by turn. *)
Example memory_of_two_questions :
  (chat_loop demo_services ["What color is the sky?"; "Why is that?"; "QUIT"]
     [] empty_world).1.2
  = [HumanMessage "What color is the sky?"; AIMessage "It is blue.";
     HumanMessage "Why is that?"; AIMessage "It is blue."].
Proof. reflexivity. Qed.

(** *** Loading documents *)

(** C6.  With no valid local path and no URL, [load_documents] raises its
    [ValueError], and so does [build_vector_store], before any outside
    call: the world is the one they started in, store and log. *)
Theorem missing_source_raises_first sv path urls w :
  valid_path sv (Some path) = false ->
  nonempty_urls urls = false ->
  load_documents sv (Some path) urls w
  = (Raise (ValueError "Provide either a valid local path or URLs list."), w)
  /\ load_documents sv None urls w
     = (Raise (ValueError "Provide either a valid local path or URLs list."), w)
  /\ build_vector_store sv path w
     = (Raise (ValueError "Provide either a valid local path or URLs list."), w).
Proof.
  intros Hp Hu. unfold build_vector_store, load_documents, bind, raise.
  rewrite Hp, Hu. simpl. auto.
Qed.

Lemma missing_source_raises_first_witness :
  valid_path demo_services (Some "no/such/dir") = false
  /\ nonempty_urls (Some []) = false
  /\ load_documents demo_services (Some "no/such/dir") (Some []) empty_world
     = (Raise (ValueError "Provide either a valid local path or URLs list."),
        empty_world)
  /\ load_documents demo_services None (Some []) empty_world
     = (Raise (ValueError "Provide either a valid local path or URLs list."),
        empty_world)
  /\ build_vector_store demo_services "no/such/dir" empty_world
     = (Raise (ValueError "Provide either a valid local path or URLs list."),
        empty_world).
Proof.
  split; [reflexivity|]. split; [reflexivity|].
  apply (missing_source_raises_first demo_services "no/such/dir" (Some [])
           empty_world); reflexivity.
Defined.

(** The URLs are fetched in order; the first failure ends the loop. *)
Lemma load_urls_stops_at_failure sv before :
  forall loaded docs url after e w,
    Forall2 (fun u ds => web_load sv u = Return ds) before loaded ->
    web_load sv url = Raise e ->
    load_urls sv (before ++ url :: after) docs w
    = (Raise e, World (store w) (log w ++ map WebLoad (before ++ [url]))).
Proof.
  induction before as [|u before IH]; intros loaded docs url after e w Hb He.
  - simpl. unfold bind, call. rewrite He. reflexivity.
  - apply Forall2_cons_inv_l in Hb as (ds & loaded' & Hu & Hb & ->).
    simpl. unfold bind, call. rewrite Hu.
    change (load_urls sv (before ++ url :: after) (docs ++ ds)
              (World (store w) (log w ++ [WebLoad u]))
            = (Raise e,
               World (store w)
                 (log w ++ WebLoad u :: map WebLoad (before ++ [url])))).
    rewrite (IH loaded' _ url after e _ Hb He). simpl.
    rewrite <- app_assoc. reflexivity.
Qed.

(** The batch with one unreachable page: the page after it is readable,
    yet it is never fetched, and no document comes back. *)
Lemma unreadable_page_aborts_batch :
  load_documents demo_services None
    (Some ["https://down.example"; "https://up.example"]) empty_world
  = (Raise (ExternalError "connection refused"),
     World (Cloud ∅ 0) [WebLoad "https://down.example"])
  /\ web_load demo_services "https://up.example"
     = Return [Document "page" "https://up.example"].
Proof. split; reflexivity. Qed.

(** C7, as the code has it.  [load_documents] has no handler: the error of
    the first source that cannot be read is raised out of it, no document
    of the batch is returned, and the sources after it are not read.  This
    holds for the list of URLs, for the PDF loader, after which the text
    loader is not run, and for the text loader, whose failure loses the
    PDF documents already loaded. *)
Theorem unreadable_source_aborts_ingestion sv e w :
  (forall before loaded url after,
      Forall2 (fun u ds => web_load sv u = Return ds) before loaded ->
      web_load sv url = Raise e ->
      load_documents sv None (Some (before ++ url :: after)) w
      = (Raise e, World (store w) (log w ++ map WebLoad (before ++ [url]))))
  /\ (forall path urls,
        valid_path sv (Some path) = true ->
        directory_load sv path "**/*.pdf" = Raise e ->
        load_documents sv (Some path) urls w
        = (Raise e,
           World (store w) (log w ++ [DirectoryLoad path "**/*.pdf"])))
  /\ (forall path urls pdfs,
        valid_path sv (Some path) = true ->
        directory_load sv path "**/*.pdf" = Return pdfs ->
        directory_load sv path "**/*.txt" = Raise e ->
        load_documents sv (Some path) urls w
        = (Raise e,
           World (store w)
             (log w ++ [DirectoryLoad path "**/*.pdf";
                        DirectoryLoad path "**/*.txt"]))).
Proof.
  split; [|split].
  - intros before loaded url after Hb He. unfold load_documents.
    replace (nonempty_urls (Some (before ++ url :: after))) with true
      by (destruct before; reflexivity).
    simpl. apply (load_urls_stops_at_failure sv before loaded); assumption.
  - intros path urls Hp He. unfold load_documents, bind, call.
    rewrite Hp. simpl. rewrite He. reflexivity.
  - intros path urls pdfs Hp Hpdf He. unfold load_documents, bind, call.
    rewrite Hp. simpl. rewrite Hpdf. simpl. rewrite He.
    rewrite <- app_assoc. reflexivity.
Qed.

Lemma unreadable_source_aborts_ingestion_witness :
  (Forall2 (fun u ds => web_load demo_services u = Return ds)
     ["https://up.example"] [[Document "page" "https://up.example"]]
   /\ web_load demo_services "https://down.example"
      = Raise (ExternalError "connection refused")
   /\ load_documents demo_services None
        (Some (["https://up.example"]
               ++ "https://down.example" :: ["https://later.example"]))
        empty_world
      = (Raise (ExternalError "connection refused"),
         World (store empty_world)
           (log empty_world
            ++ map WebLoad (["https://up.example"] ++ ["https://down.example"]))))
  /\ (valid_path unreadable_services (Some "docs") = true
      /\ directory_load unreadable_services "docs" "**/*.pdf"
         = Return [Document "A report." "report.pdf"]
      /\ directory_load unreadable_services "docs" "**/*.txt"
         = Raise (ExternalError "invalid start byte")
      /\ load_documents unreadable_services (Some "docs") None empty_world
         = (Raise (ExternalError "invalid start byte"),
            World (store empty_world)
              (log empty_world ++ [DirectoryLoad "docs" "**/*.pdf";
                                   DirectoryLoad "docs" "**/*.txt"]))).
Proof.
  assert (Hb : Forall2 (fun u ds => web_load demo_services u = Return ds)
                 ["https://up.example"] [[Document "page" "https://up.example"]])
    by (repeat constructor).
  split.
  - split; [exact Hb|]. split; [reflexivity|].
    exact (proj1 (unreadable_source_aborts_ingestion demo_services
                    (ExternalError "connection refused") empty_world)
             ["https://up.example"] [[Document "page" "https://up.example"]]
             "https://down.example" ["https://later.example"] Hb eq_refl).
  - split; [reflexivity|]. split; [reflexivity|]. split; [reflexivity|].
    exact (proj2 (proj2 (unreadable_source_aborts_ingestion unreadable_services
                           (ExternalError "invalid start byte") empty_world))
             "docs" None [Document "A report." "report.pdf"]
             eq_refl eq_refl eq_refl).
Defined.

(** *** Building the store *)

Lemma load_documents_directory sv path urls pdfs txts w :
  valid_path sv (Some path) = true ->
  directory_load sv path "**/*.pdf" = Return pdfs ->
  directory_load sv path "**/*.txt" = Return txts ->
  load_documents sv (Some path) urls w
  = (Return (pdfs ++ txts),
     World (store w)
       (log w ++ [DirectoryLoad path "**/*.pdf"; DirectoryLoad path "**/*.txt"])).
Proof.
  intros Hp Hpdf Htxt. unfold load_documents, bind, call, ret.
  rewrite Hp. simpl. rewrite Hpdf. simpl. rewrite Htxt.
  rewrite <- app_assoc. reflexivity.
Qed.

Lemma on_store_returns {A} sv ev (f : cloud document -> A * cloud document)
  w a w' :
  on_store sv ev f w = (Return a, w') ->
  a = (f (store w)).1 /\ w' = World (f (store w)).2 (log w ++ [ev]).
Proof.
  unfold on_store.
  destruct (store_fault sv ev (store w)) as [[err c]|]; [discriminate|].
  destruct (f (store w)) as [a0 c]. intros H. injection H as <- <-.
  split; reflexivity.
Qed.

(** A build that returns has loaded from the directory, and every call
    after loading was answered: the store it leaves is [rebuilt], and its
    calls are [build_calls]. *)
Lemma build_vector_store_returns sv path w name w' :
  build_vector_store sv path w = (Return name, w') ->
  exists pdfs txts,
    valid_path sv (Some path) = true
    /\ directory_load sv path "**/*.pdf" = Return pdfs
    /\ directory_load sv path "**/*.txt" = Return txts
    /\ name = collection_name
    /\ store w' = rebuilt (split_documents sv (pdfs ++ txts)) (store w)
    /\ log w'
       = log w
         ++ build_calls path (length (split_documents sv (pdfs ++ txts)))
              (store w).
Proof.
  intros H. unfold build_vector_store in H. unfold bind at 1 in H.
  destruct (load_documents sv (Some path) None w) as [[docs|e] w0] eqn:Hload;
    [|discriminate].
  unfold load_documents in Hload.
  destruct (valid_path sv (Some path)) eqn:Hp; [|discriminate Hload].
  change (default "" (Some path)) with path in Hload.
  unfold bind, call, ret in Hload.
  destruct (directory_load sv path "**/*.pdf") as [pdfs|] eqn:Hpdf;
    [|discriminate Hload].
  destruct (directory_load sv path "**/*.txt") as [txts|] eqn:Htxt;
    [|discriminate Hload].
  cbn in Hload. injection Hload as <- <-.
  exists pdfs, txts. split; [reflexivity|]. split; [reflexivity|].
  split; [reflexivity|].
  unfold bind at 1 in H. unfold call at 1 in H.
  destruct (load_embeddings sv "sentence-transformers/all-MiniLM-L6-v2");
    [|discriminate].
  unfold bind at 1 in H. unfold call at 1 in H.
  destruct (connect_cloud sv); [|discriminate].
  unfold bind at 1 in H.
  match type of H with
  | match ?m with _ => _ end = _ => destruct m as [[existing|] w1] eqn:Hlist
  end; [|discriminate].
  apply on_store_returns in Hlist as [-> ->]. cbn [fst snd store log] in H.
  unfold bind at 1 in H.
  match type of H with
  | match ?m with _ => _ end = _ => destruct m as [[u|] w2] eqn:Hdel
  end; [|discriminate].
  unfold bind at 1 in H.
  match type of H with
  | match ?m with _ => _ end = _ => destruct m as [[v|] w3] eqn:Hadd
  end; [|discriminate].
  unfold ret in H. injection H as <- <-.
  apply on_store_returns in Hadd as [_ ->]. cbn [fst snd store log].
  unfold rebuilt, build_calls.
  destruct (bool_decide (collection_name ∈ list_collections (store w))).
  - apply on_store_returns in Hdel as [_ ->]. cbn [fst snd store log].
    rewrite <- !app_assoc. split; [reflexivity|]. split; reflexivity.
  - unfold ret in Hdel. injection Hdel as _ <-. cbn [store log].
    rewrite <- !app_assoc. split; [reflexivity|]. split; reflexivity.
Qed.


End LangchainRAGFacts.

(** ** langchain(pinecone).py, and rebuilding a store *)

Module RebuildFacts.
Import Py VectorStore VectorStoreFacts.





(** A rebuild that fails after the delete.  The store of the example
    refuses an empty list of chunks; a first build from [docs] stored one
    chunk; the rebuild from the empty directory deletes the collection
    and then raises, and the chunk of the first build is gone. *)
Example failed_rebuild_after_delete :
  exists w1 w2,
    LangchainRAG.build_vector_store LangchainRAG.strict_services "docs"
      LangchainRAG.empty_world
    = (Return LangchainRAG.collection_name, w1)
    /\ (entries LangchainRAG.collection_name (LangchainRAG.store w1)).*2
       = [LangchainRAG.sky]
    /\ LangchainRAG.build_vector_store LangchainRAG.strict_services "empty" w1
       = (Raise (ValueError "empty list of documents"), w2)
    /\ LangchainRAG.log w2
       = LangchainRAG.log w1
         ++ [LangchainRAG.DirectoryLoad "empty" "**/*.pdf";
             LangchainRAG.DirectoryLoad "empty" "**/*.txt";
             LangchainRAG.LoadEmbeddings
               "sentence-transformers/all-MiniLM-L6-v2";
             LangchainRAG.ConnectCloud; LangchainRAG.ListCollections;
             LangchainRAG.DeleteCollection LangchainRAG.collection_name;
             LangchainRAG.FromDocuments LangchainRAG.collection_name 0]
    /\ entries LangchainRAG.collection_name (LangchainRAG.store w2) = [].
Proof.
  exists (LangchainRAG.build_vector_store LangchainRAG.strict_services "docs"
            LangchainRAG.empty_world).2.
  exists (LangchainRAG.build_vector_store LangchainRAG.strict_services "empty"
            (LangchainRAG.build_vector_store LangchainRAG.strict_services
               "docs" LangchainRAG.empty_world).2).2.
  repeat split; vm_compute; reflexivity.
Qed.

End RebuildFacts.

(** ** Movie_Scrapper_bot *)

Module MovieBotFacts.
Import Py PyFacts MovieBot.

(** The fetch returns whenever TMDb answered each request it made with a
    response, and with JSON when the status was 200.  Here on the two
    pages, by the status of each. *)
Lemma fetch_first_page_refused sv region r1 :
  tmdb_get sv region 1 = Return r1 ->
  status_code r1 <> 200%Z ->
  get_now_playing_tmdb sv region = (Return [], [TmdbGet region 1]).
Proof.
  intros H1 Hs. unfold get_now_playing_tmdb. simpl. unfold bind, call.
  rewrite H1. apply Z.eqb_neq in Hs. rewrite Hs. reflexivity.
Qed.

Lemma fetch_single_page sv region r1 d1 :
  tmdb_get sv region 1 = Return r1 ->
  status_code r1 = 200%Z ->
  json_body r1 = Some d1 ->
  (default 1 (total_pages d1) <= 1)%Z ->
  get_now_playing_tmdb sv region
  = (Return (map movie_of (results d1)), [TmdbGet region 1]).
Proof.
  intros H1 Hs Hb Ht. unfold get_now_playing_tmdb. simpl. unfold bind, call.
  rewrite H1, Hs, Hb. simpl. apply Z.leb_le in Ht. rewrite Ht. reflexivity.
Qed.

Lemma fetch_second_page_refused sv region r1 d1 r2 :
  tmdb_get sv region 1 = Return r1 ->
  status_code r1 = 200%Z ->
  json_body r1 = Some d1 ->
  (1 < default 1 (total_pages d1))%Z ->
  tmdb_get sv region 2 = Return r2 ->
  status_code r2 <> 200%Z ->
  get_now_playing_tmdb sv region
  = (Return (map movie_of (results d1)),
     [TmdbGet region 1; Sleep; TmdbGet region 2]).
Proof.
  intros H1 Hs Hb Ht H2 Hs2.
  unfold get_now_playing_tmdb. simpl. unfold bind, call.
  rewrite H1, Hs, Hb. simpl. apply Z.leb_gt in Ht. rewrite Ht.
  rewrite H2. apply Z.eqb_neq in Hs2. rewrite Hs2. reflexivity.
Qed.

Lemma fetch_two_pages sv region r1 d1 r2 d2 :
  tmdb_get sv region 1 = Return r1 ->
  status_code r1 = 200%Z ->
  json_body r1 = Some d1 ->
  (1 < default 1 (total_pages d1))%Z ->
  tmdb_get sv region 2 = Return r2 ->
  status_code r2 = 200%Z ->
  json_body r2 = Some d2 ->
  exists calls,
    get_now_playing_tmdb sv region
    = (Return (map movie_of (results d1) ++ map movie_of (results d2)), calls)
    /\ Forall (fun ev => ev = TmdbGet region 1 \/ ev = TmdbGet region 2
                         \/ ev = Sleep) calls.
Proof.
  intros H1 Hs Hb Ht H2 Hs2 Hb2.
  unfold get_now_playing_tmdb. simpl. unfold bind, call.
  rewrite H1, Hs, Hb. simpl. apply Z.leb_gt in Ht. rewrite Ht.
  rewrite H2, Hs2, Hb2. simpl.
  destruct (default 1 (total_pages d2) <=? 2)%Z; simpl;
    eexists; (split; [reflexivity|]);
    repeat (apply Forall_cons; split; [auto|]); apply Forall_nil_2.
Qed.

Lemma get_now_playing_run sv region movies calls :
  get_now_playing_tmdb sv region = (Return movies, calls) ->
  get_now_playing sv region
  = (Return (JArr (map movie_json (take 10 movies))), calls).
Proof.
  intros H. unfold get_now_playing, bind. rewrite H. simpl.
  rewrite app_nil_r. reflexivity.
Qed.

(** C9.  When TMDb answers the requests, [get_now_playing] returns an
    array of at most ten movies.  The fetch behind it asks for page 1 and
    at most page 2; a status other than 200 ends it, and the movies of
    the pages read so far are what it returns. *)
Theorem get_now_playing_at_most_ten sv region r1 r2 :
  tmdb_get sv region 1 = Return r1 ->
  tmdb_get sv region 2 = Return r2 ->
  (status_code r1 = 200%Z -> is_Some (json_body r1)) ->
  (status_code r2 = 200%Z -> is_Some (json_body r2)) ->
  exists movies calls,
    get_now_playing_tmdb sv region = (Return movies, calls)
    /\ get_now_playing sv region
       = (Return (JArr (map movie_json (take 10 movies))), calls)
    /\ length (map movie_json (take 10 movies)) <= 10
    /\ (forall ev, ev ∈ calls ->
          ev = TmdbGet region 1 \/ ev = TmdbGet region 2 \/ ev = Sleep)
    /\ (status_code r1 <> 200%Z -> movies = [])
    /\ (forall d1,
          status_code r1 = 200%Z -> json_body r1 = Some d1 ->
          (default 1 (total_pages d1) <= 1)%Z ->
          movies = map movie_of (results d1))
    /\ (forall d1,
          status_code r1 = 200%Z -> json_body r1 = Some d1 ->
          (1 < default 1 (total_pages d1))%Z ->
          status_code r2 <> 200%Z ->
          movies = map movie_of (results d1))
    /\ (forall d1 d2,
          status_code r1 = 200%Z -> json_body r1 = Some d1 ->
          (1 < default 1 (total_pages d1))%Z ->
          status_code r2 = 200%Z -> json_body r2 = Some d2 ->
          movies = map movie_of (results d1) ++ map movie_of (results d2)).
Proof.
  intros H1 H2 Hj1 Hj2.
  assert (Hlen : forall ms : list movie,
             length (map movie_json (take 10 ms)) <= 10)
    by (intros ms; rewrite length_map, length_take; lia).
  assert (Hsame : forall d d', json_body r1 = Some d -> json_body r1 = Some d' ->
                               d = d') by congruence.
  assert (Hcalls : forall calls,
             Forall (fun ev => ev = TmdbGet region 1 \/ ev = TmdbGet region 2
                               \/ ev = Sleep) calls ->
             forall ev, ev ∈ calls ->
                        ev = TmdbGet region 1 \/ ev = TmdbGet region 2
                        \/ ev = Sleep)
    by (intros calls Hall ev Hev; exact (proj1 (Forall_forall _ _) Hall ev Hev)).
  destruct (Z.eq_dec (status_code r1) 200%Z) as [Hs1|Hs1].
  2:{ pose proof (fetch_first_page_refused sv region r1 H1 Hs1) as Hf.
      eexists _, _. split; [exact Hf|].
      split; [exact (get_now_playing_run _ _ _ _ Hf)|].
      split; [apply Hlen|].
      split; [apply Hcalls; repeat (apply Forall_cons; split; [auto|]);
             apply Forall_nil_2|].
      repeat split; intros; try reflexivity; contradiction. }
  destruct (Hj1 Hs1) as [d1 Hd1].
  destruct (Z.le_gt_cases (default 1%Z (total_pages d1)) 1%Z) as [Ht|Ht].
  { pose proof (fetch_single_page sv region r1 d1 H1 Hs1 Hd1 Ht) as Hf.
    eexists _, _. split; [exact Hf|].
    split; [exact (get_now_playing_run _ _ _ _ Hf)|].
    split; [apply Hlen|].
    split; [apply Hcalls; repeat (apply Forall_cons; split; [auto|]);
             apply Forall_nil_2|].
    repeat split; try (intros; contradiction).
    - intros d _ Hd _. rewrite (Hsame d d1 Hd Hd1). reflexivity.
    - intros d _ Hd Hlt. rewrite (Hsame d d1 Hd Hd1) in Hlt. lia.
    - intros d d' _ Hd Hlt. rewrite (Hsame d d1 Hd Hd1) in Hlt. lia. }
  destruct (Z.eq_dec (status_code r2) 200%Z) as [Hs2|Hs2].
  2:{ pose proof (fetch_second_page_refused sv region r1 d1 r2
                    H1 Hs1 Hd1 Ht H2 Hs2) as Hf.
      eexists _, _. split; [exact Hf|].
      split; [exact (get_now_playing_run _ _ _ _ Hf)|].
      split; [apply Hlen|].
      split; [apply Hcalls; repeat (apply Forall_cons; split; [auto|]);
             apply Forall_nil_2|].
      repeat split; try (intros; contradiction).
      - intros d _ Hd Hle. rewrite (Hsame d d1 Hd Hd1) in Hle. lia.
      - intros d _ Hd _ _. rewrite (Hsame d d1 Hd Hd1). reflexivity. }
  destruct (Hj2 Hs2) as [d2 Hd2].
  destruct (fetch_two_pages sv region r1 d1 r2 d2 H1 Hs1 Hd1 Ht H2 Hs2 Hd2)
    as (calls & Hf & Hall).
  eexists _, calls. split; [exact Hf|].
  split; [exact (get_now_playing_run _ _ _ _ Hf)|].
  split; [apply Hlen|].
  split; [apply Hcalls; exact Hall|].
  repeat split; try (intros; contradiction).
  - intros d _ Hd Hle. rewrite (Hsame d d1 Hd Hd1) in Hle. lia.
  - intros d d' _ Hd _ _ Hd'. rewrite (Hsame d d1 Hd Hd1).
    assert (d' = d2) by congruence. subst d'. reflexivity.
Qed.

Lemma get_now_playing_at_most_ten_witness :
  tmdb_get flaky_services "IN" 1 = Return (Response 200 (Some page_one))
  /\ tmdb_get flaky_services "IN" 2 = Return (Response 503 None)
  /\ exists movies calls,
      get_now_playing_tmdb flaky_services "IN" = (Return movies, calls)
      /\ get_now_playing flaky_services "IN"
         = (Return (JArr (map movie_json (take 10 movies))), calls)
      /\ length (map movie_json (take 10 movies)) <= 10
      /\ (forall ev, ev ∈ calls ->
            ev = TmdbGet "IN" 1 \/ ev = TmdbGet "IN" 2 \/ ev = Sleep)
      /\ (200%Z <> 200%Z -> movies = [])
      /\ (forall d1,
            200%Z = 200%Z -> Some page_one = Some d1 ->
            (default 1 (total_pages d1) <= 1)%Z ->
            movies = map movie_of (results d1))
      /\ (forall d1,
            200%Z = 200%Z -> Some page_one = Some d1 ->
            (1 < default 1 (total_pages d1))%Z ->
            503%Z <> 200%Z ->
            movies = map movie_of (results d1))
      /\ (forall d1 d2,
            200%Z = 200%Z -> Some page_one = Some d1 ->
            (1 < default 1 (total_pages d1))%Z ->
            503%Z = 200%Z -> None = Some d2 ->
            movies = map movie_of (results d1) ++ map movie_of (results d2)).
Proof.
  split; [reflexivity|]. split; [reflexivity|].
  apply (get_now_playing_at_most_ten flaky_services "IN"
           (Response 200 (Some page_one)) (Response 503 None)).
  - reflexivity.
  - reflexivity.
  - intros _. eexists. reflexivity.
  - intros H. discriminate H.
Defined.

(** Fourteen movies are gathered from the two pages; ten are returned. *)
Example ten_of_fourteen :
  exists movies items calls,
    get_now_playing_tmdb demo_services "IN" = (Return movies, calls)
    /\ length movies = 14
    /\ get_now_playing demo_services "IN" = (Return (JArr items), calls)
    /\ length items = 10.
Proof. eexists _, _, _. repeat split; reflexivity. Qed.

(** The second page is refused: the seven movies of the first come back. *)
Example first_page_survives :
  exists items,
    get_now_playing flaky_services "IN"
    = (Return (JArr items), [TmdbGet "IN" 1; Sleep; TmdbGet "IN" 2])
    /\ length items = 7.
Proof. eexists. split; reflexivity. Qed.

(** *** Finding a movie in a city *)

Lemma fetch_pages_calls sv region pages :
  forall gathered, Forall tmdb_call (fetch_pages sv region pages gathered).2.
Proof.
  induction pages as [|page rest IH]; intros gathered; simpl.
  - constructor.
  - unfold bind, call.
    destruct (tmdb_get sv region page) as [r|e]; simpl;
      [|repeat constructor].
    destruct (status_code r =? 200)%Z; simpl; [|repeat constructor].
    destruct (json_body r) as [data|]; simpl; [|repeat constructor].
    destruct (default 1 (total_pages data) <=? page)%Z; simpl;
      [repeat constructor|].
    specialize (IH (gathered ++ map movie_of (results data))).
    destruct (fetch_pages sv region rest
                (gathered ++ map movie_of (results data))) as [[ms|e] t];
      simpl in *; repeat constructor; exact IH.
Qed.

Lemma passed_over_no_match sv movie_title m :
  passed_over sv movie_title m ->
  exists t, title m = Some t
            /\ contains (py_lower sv movie_title) (py_lower sv t) = false.
Proof.
  intros (t & Ht & Hno). exists t. split; [exact Ht|].
  apply not_true_is_false. intros Hc. apply Hno.
  apply contains_spec. exact Hc.
Qed.


Lemma first_match_found sv movie_title before m after t :
  Forall (passed_over sv movie_title) before ->
  title m = Some t ->
  title_matches sv movie_title t ->
  first_match sv movie_title (before ++ m :: after) = Return (Some m).
Proof.
  intros Hb Ht Hm. induction Hb as [|m' before Hm' _ IH]; simpl.
  - rewrite Ht. apply contains_spec in Hm. rewrite Hm. reflexivity.
  - destruct (passed_over_no_match _ _ _ Hm') as (t' & -> & ->). exact IH.
Qed.



Lemma no_match_passed_over sv movie_title m t :
  title m = Some t ->
  contains (py_lower sv movie_title) (py_lower sv t) = false ->
  passed_over sv movie_title m.
Proof.
  intros Ht Hc. exists t. split; [exact Ht|].
  intros Hm. apply contains_spec in Hm. congruence.
Qed.


(** The query is matched against the titles in list order: [Leo] comes
    before [Leo: The Return].  Nine cinemas are found, eight are listed. *)
Example leo_in_pune :
  find_movie_in_city demo_services "LEO" "Pune"
  = (Return
       (JObj [ ("movie", JStr "Leo");
               ("release_date", JStr "2025-01-01");
               ("overview", JStr "About Leo...");
               ("city", JStr "Pune");
               ("likely_theaters",
                JArr [JStr "PVR"; JStr "INOX"; JStr "Cinepolis";
                      JStr "E-Square"; JStr "City Pride"; JStr "Victory";
                      JStr "Rahul"; JStr "Mangala"]) ]),
     [TmdbGet "IN" 1; Sleep; TmdbGet "IN" 2;
      NominatimGet "Pune"; OverpassPost "18.52" "73.85"]).
Proof. reflexivity. Qed.

Example unknown_movie_no_theater_lookup :
  find_movie_in_city demo_services "Inception" "Pune"
  = (Return
       (JObj [ ("message",
                JStr "Inception is not currently showing in India or not found.") ]),
     [TmdbGet "IN" 1; Sleep; TmdbGet "IN" 2]).
Proof. reflexivity. Qed.

End MovieBotFacts.

(** ** Bitcoin_predictor_Agent(ReAct).py *)

Module BitcoinFacts.
Import Py BitcoinAgent.

(** *** Grouping *)

Lemma group3_four a b c d rest :
  group3 (a :: b :: c :: d :: rest)
  = a :: b :: c :: ","%char :: group3 (d :: rest).
Proof. reflexivity. Qed.

Lemma group3_short cs : length cs <= 3 -> group3 cs = cs.
Proof.
  destruct cs as [|a [|b [|c [|d rest]]]]; simpl; intros H; try reflexivity.
  lia.
Qed.

Lemma filter_no_comma cs :
  Forall (fun c => not_comma c = true) cs -> List.filter not_comma cs = cs.
Proof.
  induction 1 as [|c cs Hc _ IH]; simpl; [reflexivity|].
  rewrite Hc, IH. reflexivity.
Qed.

(** What grouping does to characters that are no commas, given least
    significant first. *)
Lemma group3_spec n :
  forall cs,
    length cs <= n ->
    Forall (fun c => not_comma c = true) cs ->
    List.filter not_comma (group3 cs) = cs
    /\ (forall i c, group3 cs !! i = Some c -> (c = ","%char <-> i mod 4 = 3))
    /\ (cs <> [] -> length (group3 cs) mod 4 <> 0)
    /\ last (group3 cs) = last cs.
Proof.
  induction n as [n IH] using lt_wf_ind. intros cs Hlen Hall.
  destruct (le_lt_dec (length cs) 3) as [Hshort|Hlong].
  - rewrite (group3_short cs Hshort).
    split; [apply filter_no_comma; exact Hall|].
    split; [|split; [|reflexivity]].
    + intros i c Hic.
      assert (Hi : i < 3) by (apply lookup_lt_Some in Hic; lia).
      assert (Hc : not_comma c = true).
      { exact (Forall_lookup_1 _ _ _ _ Hall Hic). }
      split.
      * intros ->. discriminate Hc.
      * intros Hm. rewrite Nat.mod_small in Hm by lia. lia.
    + intros Hne. destruct cs as [|a [|b [|c [|d rest]]]]; simpl in *;
        try congruence; try lia; discriminate.
  - destruct cs as [|a [|b [|c [|d rest]]]]; simpl in Hlong; try lia.
    rewrite group3_four.
    apply Forall_cons in Hall as [Ha Hall].
    apply Forall_cons in Hall as [Hb Hall].
    apply Forall_cons in Hall as [Hc Hall].
    destruct (IH (length (d :: rest)) ltac:(simpl in *; lia) (d :: rest)
                ltac:(lia) Hall) as (Hf & Hpos & Hmod & Hlast).
    split; [|split; [|split]].
    + cbn [List.filter]. rewrite Ha, Hb, Hc.
      change (not_comma ",") with false. cbv iota. rewrite Hf. reflexivity.
    + intros i x Hix.
      destruct i as [|[|[|[|j]]]]; cbn [lookup list_lookup] in Hix.
      * injection Hix as <-. split; [intros ->; discriminate Ha|].
        intros H; discriminate H.
      * injection Hix as <-. split; [intros ->; discriminate Hb|].
        intros H; discriminate H.
      * injection Hix as <-. split; [intros ->; discriminate Hc|].
        intros H; discriminate H.
      * injection Hix as <-. split; reflexivity.
      * rewrite (Hpos j x Hix).
        replace (S (S (S (S j)))) with (j + 1 * 4) by lia.
        rewrite Nat.Div0.mod_add. reflexivity.
    + intros _. cbn [length].
      replace (S (S (S (S (length (group3 (d :: rest)))))))
        with (length (group3 (d :: rest)) + 1 * 4) by lia.
      rewrite Nat.Div0.mod_add. apply Hmod. discriminate.
    + change (last (a :: b :: c :: d :: rest)) with (last (d :: rest)).
      rewrite <- Hlast.
      destruct (group3 (d :: rest)) as [|y ys] eqn:E; [|reflexivity].
      exfalso. assert (Hne : d :: rest <> []) by discriminate.
      apply (Hmod Hne). reflexivity.
Qed.

Lemma head_rev_last {A} (l : list A) : head (rev l) = last l.
Proof.
  induction l as [|x l IH]; [reflexivity|].
  cbn [rev]. destruct l as [|y l]; [reflexivity|].
  change (last (x :: y :: l)) with (last (y :: l)). rewrite <- IH.
  destruct (rev (y :: l)) as [|z zs] eqn:E; [|reflexivity].
  apply (f_equal (@length A)) in E. rewrite length_rev in E. discriminate E.
Qed.

Lemma last_map {A B} (f : A -> B) (l : list A) :
  last (map f l) = f <$> last l.
Proof.
  induction l as [|x [|y l] IH]; [reflexivity|reflexivity|].
  exact IH.
Qed.

Local Open Scope Z_scope.

(** The value of digits given least significant first. *)
Lemma digit_of_digit_char d :
  0 <= d <= 9 -> digit_of (digit_char d) = Some d.
Proof.
  intros Hd.
  assert (H : d = 0 \/ d = 1 \/ d = 2 \/ d = 3 \/ d = 4 \/ d = 5 \/ d = 6
              \/ d = 7 \/ d = 8 \/ d = 9) by lia.
  repeat (destruct H as [->|H]; [reflexivity|]). subst d. reflexivity.
Qed.

Lemma digit_char_not_comma d :
  0 <= d <= 9 -> not_comma (digit_char d) = true.
Proof.
  intros Hd.
  assert (H : d = 0 \/ d = 1 \/ d = 2 \/ d = 3 \/ d = 4 \/ d = 5 \/ d = 6
              \/ d = 7 \/ d = 8 \/ d = 9) by lia.
  repeat (destruct H as [->|H]; [reflexivity|]). subst d. reflexivity.
Qed.

Lemma round_half_even_nearest n d :
  0 < d ->
  Z.abs (2 * (round_half_even n d * d - n)) <= d
  /\ (Z.abs (2 * (round_half_even n d * d - n)) = d ->
      Z.even (round_half_even n d) = true).
Proof.
  intros Hd. unfold round_half_even.
  pose proof (Z.div_mod n d ltac:(lia)) as Hn.
  pose proof (Z.mod_pos_bound n d Hd) as Hr.
  destruct (Z.ltb_spec (2 * (n mod d)) d) as [H1|H1].
  - split; [nia|nia].
  - destruct (Z.ltb_spec d (2 * (n mod d))) as [H2|H2].
    + split; [nia|nia].
    + destruct (Z.even (n / d)) eqn:He.
      * split; [nia|intros _; exact He].
      * split; [nia|intros _].
        rewrite Z.even_add, He. reflexivity.
Qed.

Lemma hundredths_nearest m e : nearest_hundredth m e (hundredths m e).
Proof.
  unfold nearest_hundredth, hundredths.
  destruct (0 <=? e) eqn:He; [reflexivity|].
  apply Z.leb_gt in He.
  apply round_half_even_nearest. apply Z.pow_pos_nonneg; lia.
Qed.

Lemma hundredths_nonneg m e : 0 <= hundredths m e.
Proof.
  unfold hundredths. destruct (0 <=? e) eqn:He.
  - apply Z.leb_le in He.
    assert (0 < 2 ^ e) by (apply Z.pow_pos_nonneg; lia). nia.
  - apply Z.leb_gt in He. unfold round_half_even.
    assert (Hd : 0 < 2 ^ (- e)) by (apply Z.pow_pos_nonneg; lia).
    assert (0 <= Z.pos m * 100 / 2 ^ (- e)) by (apply Z.div_pos; lia).
    repeat match goal with |- context [if ?b then _ else _] => destruct b end;
      lia.
Qed.

(** *** Digits *)

Lemma digits_from_value fuel :
  forall n,
    0 <= n < 10 ^ Z.of_nat (S fuel) ->
    Forall (fun d => 0 <= d <= 9) (digits_from (S fuel) n)
    /\ foldr (fun d acc => d + 10 * acc) 0 (digits_from (S fuel) n) = n
    /\ (0 < n -> last (digits_from (S fuel) n) <> Some 0)
    /\ digits_from (S fuel) n <> [].
Proof.
  assert (Hone : forall n, 0 <= n < 10 ->
            Forall (fun d => 0 <= d <= 9) [n]
            /\ foldr (fun d acc => d + 10 * acc) 0 [n] = n
            /\ (0 < n -> last [n] <> Some 0)
            /\ [n] <> []).
  { intros n Hn. repeat split.
    - constructor; [lia|constructor].
    - simpl. lia.
    - simpl. intros Hpos H. injection H as H. lia.
    - discriminate. }
  induction fuel as [|fuel IH]; intros n Hn.
  - change (10 ^ Z.of_nat 1) with 10 in Hn. simpl.
    destruct (Z.ltb_spec n 10) as [Hlt|Hge]; [|lia].
    apply Hone. lia.
  - change (digits_from (S (S fuel)) n)
      with (if n <? 10 then [n]
            else n mod 10 :: digits_from (S fuel) (n / 10)).
    destruct (Z.ltb_spec n 10) as [Hlt|Hge]; [apply Hone; lia|].
    rewrite Nat2Z.inj_succ, Z.pow_succ_r in Hn by lia.
    assert (Hq : 0 <= n / 10 < 10 ^ Z.of_nat (S fuel)).
    { split; [apply Z.div_pos; lia|].
      apply Z.div_lt_upper_bound; lia. }
    destruct (IH (n / 10) Hq) as (Hall & Hval & Hlast & Hne).
    pose proof (Z.mod_pos_bound n 10 ltac:(lia)) as Hm.
    pose proof (Z.div_mod n 10 ltac:(lia)) as Hdm.
    repeat split.
    + constructor; [lia|exact Hall].
    + cbn [foldr]. rewrite Hval. lia.
    + intros _.
      destruct (digits_from (S fuel) (n / 10)) as [|d ds] eqn:E;
        [contradiction|].
      change (last (n mod 10 :: d :: ds)) with (last (d :: ds)).
      apply Hlast.
      assert (1 <= n / 10) by (apply Z.div_le_lower_bound; lia). lia.
    + discriminate.
Qed.

Lemma digits_value n :
  0 <= n ->
  Forall (fun d => 0 <= d <= 9) (digits n)
  /\ foldr (fun d acc => d + 10 * acc) 0 (digits n) = n
  /\ (0 < n -> last (digits n) <> Some 0)
  /\ digits n <> [].
Proof.
  intros Hn. unfold digits. apply digits_from_value.
  split; [exact Hn|].
  rewrite Nat2Z.inj_succ, Z2Nat.id by apply Z.log2_nonneg.
  destruct (Z.eq_dec n 0) as [->|Hne]; [reflexivity|].
  pose proof (Z.log2_spec n ltac:(lia)) as [_ Hlt].
  pose proof (Z.pow_le_mono_l 2 10 (Z.succ (Z.log2 n)) ltac:(lia)). lia.
Qed.

(** Read most significant digit first, the digits denote their value. *)
Lemma numeral_value_digits ds :
  Forall (fun d => 0 <= d <= 9) ds ->
  numeral_value (rev (map digit_char ds))
  = Some (foldr (fun d acc => d + 10 * acc) 0 ds).
Proof.
  intros Hall. unfold numeral_value.
  rewrite <- fold_left_rev_right, rev_involutive.
  induction Hall as [|d ds Hd _ IH]; [reflexivity|].
  cbn [map foldr]. rewrite IH, (digit_of_digit_char d Hd). f_equal. lia.
Qed.

Lemma chars_grouped n :
  chars (grouped n) = rev (group3 (map digit_char (digits n))).
Proof. apply String.list_ascii_of_string_of_list_ascii. Qed.

(** The whole part of an amount: its digits with their separators. *)
Lemma grouped_spec n :
  0 <= n ->
  numeral_value (List.filter not_comma (chars (grouped n))) = Some n
  /\ comma_every_three (chars (grouped n))
  /\ (head (chars (grouped n)) = Some "0"%char -> grouped n = "0"%string).
Proof.
  intros Hn. rewrite chars_grouped.
  destruct (digits_value n Hn) as (Hall & Hval & Hlast & Hne).
  assert (Hcs : Forall (fun c => not_comma c = true) (map digit_char (digits n))).
  { apply Forall_map. simpl. eapply Forall_impl; [exact Hall|].
    intros d Hd. apply digit_char_not_comma. exact Hd. }
  destruct (group3_spec _ _ (Nat.le_refl _) Hcs) as (Hf & Hpos & Hmod & Hl).
  split; [|split].
  - rewrite List.filter_rev, Hf, (numeral_value_digits _ Hall), Hval.
    reflexivity.
  - split.
    + rewrite rev_involutive. exact Hpos.
    + rewrite length_rev. apply Hmod.
      destruct (digits n); [contradiction|discriminate].
  - rewrite head_rev_last, Hl, last_map.
    destruct (last (digits n)) as [d|] eqn:Ed; [|discriminate].
    intros Hd. injection Hd as Hd.
    assert (Hd9 : 0 <= d <= 9).
    { apply (proj1 (Forall_forall _ _) Hall). apply last_Some_elem_of.
      exact Ed. }
    assert (d = 0).
    { pose proof (digit_of_digit_char d Hd9) as H. rewrite Hd in H.
      change (digit_of "0") with (Some 0) in H. congruence. }
    subst d. destruct (Z.eq_dec n 0) as [->|Hpos0]; [reflexivity|].
    assert (Hpos1 : 0 < n) by lia. exact (False_ind _ (Hlast Hpos1 eq_refl)).
Qed.

Lemma two_digits_spec f :
  0 <= f < 100 ->
  length (chars (two_digits f)) = 2%nat
  /\ numeral_value (chars (two_digits f)) = Some f.
Proof.
  intros Hf. split; [reflexivity|].
  change (chars (two_digits f))
    with [digit_char (f / 10); digit_char (f mod 10)].
  unfold numeral_value. cbn [fold_left].
  rewrite (digit_of_digit_char (f / 10)).
  2:{ split; [apply Z.div_pos; lia|].
      assert (f / 10 < 10) by (apply Z.div_lt_upper_bound; lia). lia. }
  rewrite (digit_of_digit_char (f mod 10))
    by (pose proof (Z.mod_pos_bound f 10); lia).
  f_equal. pose proof (Z.div_mod f 10). lia.
Qed.

(** The literal of the script is the binary64 number nearest to 83.1:
    it is [m * 2^-46] with [|m * 2^-46 - 83.1| <= 2^-47]. *)
Lemma conversion_rate_nearest :
  exists m,
    Prim2SF conversion_rate = S754_finite false m (-46)
    /\ Z.abs (Z.pos m * 10 - 831 * 2 ^ 46) * 2 <= 10.
Proof. eexists. split; [vm_compute; reflexivity|]. vm_compute. discriminate. Qed.

(** C8.  For every price, [btc_to_inr] returns the rupee sign, the text
    of the product of the price and the fixed rate, and [ INR].  The rate
    is the constant of the script, the binary64 number nearest to 83.1,
    and no outside value enters.  For a finite product the text is the
    amount in hundredths nearest to it: a sign, the whole part with a
    comma before every group of three digits, a point, two digits. *)
Theorem btc_to_inr_formats_product usd_price :
  (exists m,
      Prim2SF conversion_rate = S754_finite false m (-46)
      /\ Z.abs (Z.pos m * 10 - 831 * 2 ^ 46) * 2 <= 10)
  /\ exists body,
      btc_to_inr usd_price = rupee +:+ body +:+ " INR"
      /\ match Prim2SF (usd_price * conversion_rate)%float with
         | S754_finite s m e =>
             exists q, nearest_hundredth m e q /\ amount_text s q body
         | S754_zero s => body = sign_text s +:+ "0.00"
         | S754_infinity s => body = sign_text s +:+ "inf"
         | S754_nan => body = "nan"%string
         end.
Proof.
  split; [exact conversion_rate_nearest|].
  exists (format_comma_2f (usd_price * conversion_rate)%float).
  split; [reflexivity|].
  unfold format_comma_2f.
  destruct (Prim2SF (usd_price * conversion_rate)%float) as [s|s| |s m e];
    try reflexivity.
  exists (hundredths m e). split; [apply hundredths_nearest|].
  pose proof (hundredths_nonneg m e) as Hq.
  exists (grouped (hundredths m e / 100)), (two_digits (hundredths m e mod 100)).
  destruct (grouped_spec (hundredths m e / 100)) as (Hv & Hc & Hz);
    [apply Z.div_pos; lia|].
  destruct (two_digits_spec (hundredths m e mod 100)) as (Hl & Hv2);
    [apply Z.mod_pos_bound; lia|].
  split; [reflexivity|]. split; [exact Hv|]. split; [exact Hc|].
  split; [exact Hz|]. split; [exact Hl|exact Hv2].
Qed.

(** The outputs of the tool on some prices, among them a tie, a negative
    zero and a product beyond the largest binary64 number. *)
Example btc_to_inr_hundred_thousand :
  btc_to_inr 100000%float = "₹8,310,000.00 INR"%string.
Proof. vm_compute. reflexivity. Qed.

Example btc_to_inr_one : btc_to_inr 1%float = "₹83.10 INR"%string.
Proof. vm_compute. reflexivity. Qed.

Example btc_to_inr_negative :
  btc_to_inr (-0x1.8b0a3d70a3d71p+3)%float = "₹-1,025.87 INR"%string.
Proof. vm_compute. reflexivity. Qed.

Example btc_to_inr_large :
  btc_to_inr 0x1.0f0cf064dd592p+73%float
  = "₹830,999,999,999,999,976,931,328.00 INR"%string.
Proof. vm_compute. reflexivity. Qed.

Example btc_to_inr_negative_zero :
  btc_to_inr (-0)%float = "₹-0.00 INR"%string.
Proof. vm_compute. reflexivity. Qed.

Example btc_to_inr_overflow :
  btc_to_inr 0x1.e42d130773b76p+1023%float = "₹inf INR"%string.
Proof. vm_compute. reflexivity. Qed.

Example format_tie_to_even :
  format_comma_2f 0.125%float = "0.12"%string
  /\ format_comma_2f 0.375%float = "0.38"%string.
Proof. split; vm_compute; reflexivity. Qed.

End BitcoinFacts.

(** ** Text operations *)

Module PyTextFacts.
Import Py PyFacts PyText.

Lemma append_cons c s t : String c s +:+ t = String c (s +:+ t).
Proof. reflexivity. Qed.

Lemma append_nil_r s : s +:+ "" = s.
Proof.
  induction s as [|c s IH]; [reflexivity|].
  rewrite append_cons, IH. reflexivity.
Qed.

Lemma append_assoc a b c : (a +:+ b) +:+ c = a +:+ b +:+ c.
Proof.
  induction a as [|x a IH]; [reflexivity|].
  rewrite !append_cons, IH. reflexivity.
Qed.

Lemma starts_with_extend p a b :
  starts_with p a = true -> starts_with p (a +:+ b) = true.
Proof.
  intros H. apply starts_with_inv in H as [t ->].
  rewrite append_assoc. apply starts_with_app.
Qed.

Lemma starts_with_nil p : p <> "" -> starts_with p "" = false.
Proof. destruct p; [congruence|reflexivity]. Qed.

Lemma before_unfold sep s :
  before sep s
  = if starts_with sep s then ""
    else match s with
         | EmptyString => ""
         | String c t => String c (before sep t)
         end.
Proof. destruct s; reflexivity. Qed.

(** The cut is a prefix of the text. *)
Lemma before_prefix sep s : exists rest, s = before sep s +:+ rest.
Proof.
  induction s as [|c s [rest IH]]; rewrite before_unfold.
  - exists "". destruct (starts_with sep ""); reflexivity.
  - destruct (starts_with sep (String c s)).
    + exists (String c s). reflexivity.
    + exists rest. rewrite append_cons, <- IH. reflexivity.
Qed.

(** When the separator occurs, the cut ends where it first begins. *)
Lemma before_split sep s :
  contains sep s = true -> exists rest, s = before sep s +:+ sep +:+ rest.
Proof.
  induction s as [|c s IH]; rewrite contains_unfold, before_unfold; intros H.
  - rewrite orb_false_r in H. rewrite H.
    apply starts_with_inv in H as [t Ht]. exists t. exact Ht.
  - destruct (starts_with sep (String c s)) eqn:E.
    + apply starts_with_inv in E as [t Ht]. exists t. exact Ht.
    + simpl in H. destruct (IH H) as [rest Hr]. exists rest.
      rewrite append_cons, <- Hr. reflexivity.
Qed.

Lemma before_absent sep s : contains sep s = false -> before sep s = s.
Proof.
  induction s as [|c s IH]; rewrite contains_unfold, before_unfold; intros H;
    apply orb_false_iff in H as [H1 H2]; rewrite H1; [reflexivity|].
  rewrite (IH H2). reflexivity.
Qed.

(** The cut holds no occurrence of the separator. *)
Lemma before_no_sep sep s : sep <> "" -> contains sep (before sep s) = false.
Proof.
  intros Hne. induction s as [|c s IH]; rewrite before_unfold.
  - destruct (starts_with sep ""); rewrite contains_unfold;
      rewrite (starts_with_nil sep Hne); reflexivity.
  - destruct (starts_with sep (String c s)) eqn:E.
    + rewrite contains_unfold, (starts_with_nil sep Hne). reflexivity.
    + rewrite contains_unfold, IH, orb_false_r.
      apply not_true_is_false. intros H.
      destruct (before_prefix sep s) as [rest Hr].
      assert (H' : starts_with sep (String c (before sep s) +:+ rest) = true)
        by (apply starts_with_extend; exact H).
      rewrite append_cons, <- Hr in H'. congruence.
Qed.

(** A text without [x] has no part with [x]. *)
Lemma contains_part x a part b :
  contains x (a +:+ part +:+ b) = false -> contains x part = false.
Proof.
  intros H. apply not_true_is_false. intros Hp.
  apply contains_spec in Hp as (u & v & ->).
  assert (Hc : contains x (a +:+ (u +:+ x +:+ v) +:+ b) = true).
  { apply contains_spec. exists (a +:+ u), (v +:+ b).
    rewrite !append_assoc. reflexivity. }
  congruence.
Qed.

Lemma contains_prefix x p rest :
  contains x (p +:+ rest) = false -> contains x p = false.
Proof. intros H. apply (contains_part x "" p rest). exact H. Qed.

Lemma utf8_nonempty cp : utf8 cp <> "".
Proof.
  unfold utf8.
  destruct (cp <? 128)%N; [discriminate|].
  destruct (cp <? 2048)%N; [discriminate|].
  destruct (cp <? 65536)%N; discriminate.
Qed.

Lemma drop_prefix_some p s t : drop_prefix p s = Some t -> s = p +:+ t.
Proof.
  revert s; induction p as [|a p IH]; intros s H.
  - injection H as ->. reflexivity.
  - destruct s as [|b s]; [discriminate H|].
    cbn [drop_prefix] in H. destruct (Ascii.eqb a b) eqn:E; [|discriminate H].
    apply Ascii.eqb_eq in E as ->. rewrite append_cons, <- (IH s H).
    reflexivity.
Qed.

Lemma drop_prefix_app p t : drop_prefix p (p +:+ t) = Some t.
Proof.
  induction p as [|a p IH]; [reflexivity|].
  rewrite append_cons. cbn [drop_prefix]. rewrite Ascii.eqb_refl. exact IH.
Qed.

Lemma drop_prefix_none p s : drop_prefix p s = None -> starts_with p s = false.
Proof.
  intros H. apply not_true_is_false. intros Hs.
  apply starts_with_inv in Hs as [t ->]. rewrite drop_prefix_app in H.
  discriminate H.
Qed.

Lemma first_prefix_some prefixes s t :
  first_prefix prefixes s = Some t -> exists p, p ∈ prefixes /\ s = p +:+ t.
Proof.
  induction prefixes as [|p rest IH]; [discriminate|].
  cbn [first_prefix]. destruct (drop_prefix p s) as [t'|] eqn:E.
  - intros H. injection H as ->. exists p.
    split; [apply list_elem_of_here|apply drop_prefix_some; exact E].
  - intros H. destruct (IH H) as (q & Hq & Hs). exists q.
    split; [apply list_elem_of_further; exact Hq|exact Hs].
Qed.

Lemma first_prefix_none prefixes s p :
  first_prefix prefixes s = None -> p ∈ prefixes -> starts_with p s = false.
Proof.
  induction prefixes as [|q rest IH]; intros H Hp.
  - apply elem_of_nil in Hp as [].
  - cbn [first_prefix] in H. destruct (drop_prefix q s) eqn:E; [discriminate H|].
    apply elem_of_cons in Hp as [->|Hp];
      [apply drop_prefix_none; exact E|exact (IH H Hp)].
Qed.

(** A text that starts with a whitespace character is that character
    and the text after it. *)
Lemma after_space_some s t :
  after_space s = Some t -> exists cp, cp ∈ whitespace /\ s = utf8 cp +:+ t.
Proof.
  intros H. apply first_prefix_some in H as (p & Hp & Hs).
  apply list_elem_of_fmap in Hp as (cp & -> & Hcp). exists cp. auto.
Qed.

Lemma after_space_none s cp :
  after_space s = None -> cp ∈ whitespace -> starts_with (utf8 cp) s = false.
Proof.
  intros H Hcp. apply (first_prefix_none _ _ _ H).
  apply list_elem_of_fmap. exists cp. auto.
Qed.

(** No whitespace character begins with another: the character taken
    off is the one the text starts with. *)
Lemma after_space_app cp t :
  cp ∈ whitespace -> after_space (utf8 cp +:+ t) = Some t.
Proof.
  intros H. unfold whitespace in H.
  repeat (apply elem_of_cons in H as [->|H]; [reflexivity|]).
  apply elem_of_nil in H as [].
Qed.

Lemma length_append a b :
  String.length (a +:+ b) = String.length a + String.length b.
Proof.
  induction a as [|c a IH]; [reflexivity|].
  rewrite append_cons. simpl. rewrite IH. reflexivity.
Qed.

Lemma after_space_shorter s t :
  after_space s = Some t -> String.length t < String.length s.
Proof.
  intros H. apply after_space_some in H as (cp & _ & ->).
  pose proof (utf8_nonempty cp) as Hne. rewrite length_append.
  destruct (utf8 cp); [congruence|]. cbn [String.length]. lia.
Qed.

Lemma lstrip_from_enough f1 :
  forall f2 s,
    String.length s <= f1 -> String.length s <= f2 ->
    lstrip_from f1 s = lstrip_from f2 s.
Proof.
  induction f1 as [|f1 IH]; intros f2 s H1 H2.
  - destruct s; [|cbn in H1; lia]. destruct f2; reflexivity.
  - destruct f2 as [|f2].
    + destruct s; [reflexivity|cbn in H2; lia].
    + cbn [lstrip_from].
      destruct (after_space s) as [t|] eqn:E; [|reflexivity].
      pose proof (after_space_shorter _ _ E). apply IH; lia.
Qed.

Lemma lstrip_unfold s :
  lstrip s = match after_space s with
             | Some t => lstrip t
             | None => s
             end.
Proof.
  unfold lstrip. destruct s as [|c s]; [reflexivity|].
  cbn [String.length lstrip_from].
  destruct (after_space (String c s)) as [t|] eqn:E; [|reflexivity].
  pose proof (after_space_shorter _ _ E) as Hlt. cbn [String.length] in Hlt.
  apply lstrip_from_enough; lia.
Qed.

(** Induction on a text by the whitespace taken off its front. *)
Lemma lstrip_ind (P : string -> Prop) :
  (forall s, after_space s = None -> P s) ->
  (forall s t, after_space s = Some t -> P t -> P s) ->
  forall s, P s.
Proof.
  intros Hnone Hsome s.
  remember (String.length s) as n eqn:Hn.
  revert s Hn. induction n as [n IH] using lt_wf_ind. intros s ->.
  destruct (after_space s) as [t|] eqn:E; [|apply Hnone; exact E].
  apply (Hsome s t E). apply (IH (String.length t)); [|reflexivity].
  apply after_space_shorter. exact E.
Qed.

Lemma lstrip_suffix s : exists a, s = a +:+ lstrip s.
Proof.
  induction s as [s E|s t E [a IH]] using lstrip_ind; rewrite lstrip_unfold, E.
  - exists "". reflexivity.
  - apply after_space_some in E as (cp & _ & ->).
    exists (utf8 cp +:+ a). rewrite append_assoc, <- IH. reflexivity.
Qed.

(** What [lstrip] leaves starts with no whitespace character. *)
Lemma lstrip_clean s : after_space (lstrip s) = None.
Proof.
  induction s as [s E|s t E IH] using lstrip_ind; rewrite lstrip_unfold, E;
    assumption.
Qed.

Lemma all_space_app cp t :
  cp ∈ whitespace -> all_space (utf8 cp +:+ t) = all_space t.
Proof.
  intros H. unfold all_space.
  rewrite (lstrip_unfold (utf8 cp +:+ t)), (after_space_app cp t H).
  reflexivity.
Qed.

Lemma rstrip_unfold c t :
  rstrip (String c t)
  = if all_space (String c t) then "" else String c (rstrip t).
Proof. reflexivity. Qed.

(** What [rstrip] takes off is whitespace only. *)
Lemma rstrip_split s : exists u, s = rstrip s +:+ u /\ all_space u = true.
Proof.
  induction s as [|c t (u & IH & Hu)]; [exists ""; split; reflexivity|].
  rewrite rstrip_unfold. destruct (all_space (String c t)) eqn:E.
  - exists (String c t). split; [reflexivity|exact E].
  - exists u. rewrite append_cons, <- IH. split; [reflexivity|exact Hu].
Qed.

Lemma rstrip_prefix s : exists b, s = rstrip s +:+ b.
Proof. destruct (rstrip_split s) as (u & H & _). exists u. exact H. Qed.

(** What [strip] returns is a part of the text. *)
Lemma strip_part s : exists a b, s = a +:+ strip s +:+ b.
Proof.
  destruct (lstrip_suffix s) as [a Ha].
  destruct (rstrip_prefix (lstrip s)) as [b Hb].
  exists a, b. unfold strip. rewrite <- Hb. exact Ha.
Qed.

(** What [rstrip] leaves ends with no whitespace character. *)
Lemma rstrip_clean s :
  forall p cp, cp ∈ whitespace -> rstrip s <> p +:+ utf8 cp.
Proof.
  induction s as [|c t IH]; intros p cp Hcp H.
  - destruct p; [|discriminate H].
    apply (utf8_nonempty cp). symmetry. exact H.
  - rewrite rstrip_unfold in H. destruct (all_space (String c t)) eqn:E.
    + destruct p; [|discriminate H].
      apply (utf8_nonempty cp). symmetry. exact H.
    + destruct p as [|d p].
      * destruct (rstrip_split t) as (u & Ht & Hu).
        change ("" +:+ utf8 cp) with (utf8 cp) in H.
        assert (Hs : String c t = utf8 cp +:+ u).
        { rewrite <- H, append_cons, <- Ht. reflexivity. }
        rewrite Hs, (all_space_app cp u Hcp), Hu in E. discriminate E.
      * rewrite append_cons in H. injection H as _ H.
        exact (IH p cp Hcp H).
Qed.

(** The stripped text neither begins nor ends with a whitespace
    character. *)
Lemma strip_ends s cp :
  cp ∈ whitespace ->
  starts_with (utf8 cp) (strip s) = false
  /\ forall p, strip s <> p +:+ utf8 cp.
Proof.
  intros Hcp. unfold strip. split.
  - apply not_true_is_false. intros H.
    destruct (rstrip_prefix (lstrip s)) as [b Hb].
    apply (starts_with_extend _ _ b) in H. rewrite <- Hb in H.
    rewrite (after_space_none _ cp (lstrip_clean s) Hcp) in H. discriminate H.
  - intros p. apply rstrip_clean. exact Hcp.
Qed.

Lemma starts_with_tick p c s :
  starts_with (String "`" p) (String c s)
  = Ascii.eqb c "`" && starts_with p s.
Proof.
  change (starts_with (String "`" p) (String c s))
    with (Ascii.eqb "`" c && starts_with p s).
  rewrite Ascii.eqb_sym. reflexivity.
Qed.

Lemma ticks_cons c t :
  ticks (String c t) = if Ascii.eqb c "`" then S (ticks t) else 0.
Proof. reflexivity. Qed.

Lemma starts_with_fence s : starts_with "```" s = true <-> 3 <= ticks s.
Proof.
  destruct s as [|a s]; [split; [discriminate|cbn; lia]|].
  rewrite starts_with_tick, ticks_cons.
  destruct (Ascii.eqb a "`"); [|split; [discriminate|lia]].
  destruct s as [|b s]; [split; [discriminate|cbn; lia]|].
  rewrite starts_with_tick, ticks_cons.
  destruct (Ascii.eqb b "`"); [|split; [discriminate|lia]].
  destruct s as [|c s]; [split; [discriminate|cbn; lia]|].
  rewrite starts_with_tick, ticks_cons.
  destruct (Ascii.eqb c "`"); [|split; [discriminate|lia]].
  split; [lia|reflexivity].
Qed.

Lemma remove_from_fence_step c t :
  remove_from "```" 0 (String c t)
  = if starts_with "```" (String c t)
    then remove_from "```" 2 t
    else String c (remove_from "```" 0 t).
Proof. reflexivity. Qed.

(** Taking out the fences leaves no three backticks in a row. *)
Lemma remove_from_fence s :
  forall k,
    contains "```" (remove_from "```" k s) = false
    /\ ticks (remove_from "```" k s) <= 2
    /\ (k = 0 -> ticks s <= 2 -> ticks (remove_from "```" 0 s) = ticks s).
Proof.
  induction s as [|c t IH]; intros k.
  - repeat split; auto.
  - destruct k as [|k].
    + rewrite remove_from_fence_step.
      destruct (starts_with "```" (String c t)) eqn:E.
      * destruct (IH 2) as (Hc & Ht & _). repeat split; try assumption.
        intros _ Hs. apply starts_with_fence in E. lia.
      * destruct (IH 0) as (Hc & Ht & Heq).
        assert (Hnot : ~ 3 <= ticks (String c t))
          by (rewrite <- starts_with_fence; congruence).
        rewrite !ticks_cons in *. destruct (Ascii.eqb c "`") eqn:Ec.
        -- assert (Hsame : ticks (remove_from "```" 0 t) = ticks t)
             by (apply Heq; [reflexivity|lia]).
           repeat split; try lia.
           rewrite contains_unfold, Hc, orb_false_r.
           apply not_true_is_false. intros Hs.
           apply starts_with_fence in Hs. rewrite ticks_cons, Ec in Hs. lia.
        -- repeat split; try lia.
           rewrite contains_unfold, Hc, orb_false_r.
           apply not_true_is_false. intros Hs.
           apply starts_with_fence in Hs. rewrite ticks_cons, Ec in Hs. lia.
    + change (remove_from "```" (S k) (String c t))
        with (remove_from "```" k t).
      destruct (IH k) as (Hc & Ht & _). repeat split; try assumption.
      intros H. discriminate H.
Qed.

Lemma remove_fence s : contains "```" (remove "```" s) = false.
Proof. apply (remove_from_fence s 0). Qed.

End PyTextFacts.

(** ** The answer handling of the two agents *)

Module AnswerFacts.
Import Py PyFacts PyText PyTextFacts ChatbotAnswer BitcoinAnswer.

(** For every text of a model message, the cleaned text holds no code
    fence and neither of the two metadata words, it neither begins nor
    ends with a whitespace character, and it is a part of the text that
    the two replacements leave. *)
Theorem clean_text_is_clean text_output :
  contains "```" (clean_text text_output) = false
  /\ contains "signature" (clean_text text_output) = false
  /\ contains "safetyRatings" (clean_text text_output) = false
  /\ (forall cp,
        cp ∈ whitespace ->
        starts_with (utf8 cp) (clean_text text_output) = false
        /\ forall p, clean_text text_output <> p +:+ utf8 cp)
  /\ exists a b,
      remove "```" (remove "```json" text_output)
      = a +:+ clean_text text_output +:+ b.
Proof.
  unfold clean_text.
  set (u1 := remove "```" (remove "```json" text_output)).
  set (u2 := before "signature" u1).
  set (u3 := before "safetyRatings" u2).
  destruct (before_prefix "signature" u1) as [r2 H2]. fold u2 in H2.
  destruct (before_prefix "safetyRatings" u2) as [r3 H3]. fold u3 in H3.
  destruct (strip_part u3) as (a & b & Hs).
  assert (F1 : contains "```" u1 = false) by apply remove_fence.
  assert (F2 : contains "```" u2 = false)
    by (apply (contains_prefix _ _ r2); rewrite <- H2; exact F1).
  assert (F3 : contains "```" u3 = false)
    by (apply (contains_prefix _ _ r3); rewrite <- H3; exact F2).
  assert (S2 : contains "signature" u2 = false)
    by (apply before_no_sep; discriminate).
  assert (S3 : contains "signature" u3 = false)
    by (apply (contains_prefix _ _ r3); rewrite <- H3; exact S2).
  assert (R3 : contains "safetyRatings" u3 = false)
    by (apply before_no_sep; discriminate).
  split; [apply (contains_part _ a _ b); rewrite <- Hs; exact F3|].
  split; [apply (contains_part _ a _ b); rewrite <- Hs; exact S3|].
  split; [apply (contains_part _ a _ b); rewrite <- Hs; exact R3|].
  split; [intros cp; apply strip_ends|].
  exists a, (b +:+ r3 +:+ r2).
  rewrite H2, H3 at 1. rewrite Hs at 1.
  rewrite !append_assoc. reflexivity.
Qed.

(** A message between no-break spaces, in a fence: the spaces go with
    the fence. *)
Example clean_text_no_break_spaces :
  clean_text (utf8 160 +:+ "```json" +:+ utf8 8195 +:+ "{}" +:+ nl +:+ "```"
              +:+ utf8 160)
  = "{}".
Proof. vm_compute. reflexivity. Qed.






(** A result of one hundred rupee signs and one of two hundred and one:
    the first is shown whole, the second is cut after two hundred signs. *)
Example observation_counts_characters :
  observation (String.concat "" (repeat "₹" 100))
  = String.concat "" (repeat "₹" 100)
  /\ observation (String.concat "" (repeat "₹" 201))
     = String.concat "" (repeat "₹" 200) +:+ "...".
Proof. split; vm_compute; reflexivity. Qed.

Lemma starts_with_refl s : starts_with s s = true.
Proof. rewrite <- (append_nil_r s) at 2. apply starts_with_app. Qed.

Lemma before_of_cut sep s :
  contains sep s = true -> before sep (before sep s +:+ sep) = before sep s.
Proof.
  induction s as [|c s IH]; rewrite contains_unfold; intros H.
  - rewrite orb_false_r in H. rewrite (before_unfold sep ""), H.
    change ("" +:+ sep) with sep.
    rewrite before_unfold, starts_with_refl. reflexivity.
  - rewrite (before_unfold sep (String c s)).
    destruct (starts_with sep (String c s)) eqn:E.
    + change ("" +:+ sep) with sep.
      rewrite before_unfold, starts_with_refl. reflexivity.
    + simpl in H. rewrite append_cons, before_unfold.
      destruct (before_split sep s H) as [rest Hr].
      assert (Hno : starts_with sep (String c (before sep s +:+ sep)) = false).
      { apply not_true_is_false. intros Hs.
        apply (starts_with_extend _ _ rest) in Hs.
        rewrite append_cons, append_assoc, <- Hr in Hs. congruence. }
      rewrite Hno, (IH H). reflexivity.
Qed.

(** The answer is cut after the first [INR]: what is kept is a prefix of
    the answer, it holds [INR] once, at its end, and cutting it again
    changes nothing.  An answer without [INR] is left as it is. *)
Theorem cut_at_inr_first final_answer :
  (exists rest, final_answer = cut_at_inr final_answer +:+ rest)
  /\ (contains "INR" final_answer = true ->
      cut_at_inr final_answer = before "INR" final_answer +:+ "INR"
      /\ contains "INR" (before "INR" final_answer) = false)
  /\ (contains "INR" final_answer = false ->
      cut_at_inr final_answer = final_answer)
  /\ cut_at_inr (cut_at_inr final_answer) = cut_at_inr final_answer.
Proof.
  destruct (contains "INR" final_answer) eqn:E.
  - assert (Hcut : cut_at_inr final_answer
                   = before "INR" final_answer +:+ "INR")
      by (unfold cut_at_inr; rewrite E; reflexivity).
    rewrite Hcut.
    destruct (before_split "INR" final_answer E) as [rest Hr].
    split; [exists rest; rewrite append_assoc; exact Hr|].
    split; [intros _; split; [reflexivity|apply before_no_sep; discriminate]|].
    split; [discriminate|].
    assert (Hc : contains "INR" (before "INR" final_answer +:+ "INR") = true).
    { apply contains_spec. exists (before "INR" final_answer), "".
      rewrite append_nil_r. reflexivity. }
    unfold cut_at_inr.
    rewrite Hc, (before_of_cut "INR" final_answer E). reflexivity.
  - assert (Hcut : cut_at_inr final_answer = final_answer)
      by (unfold cut_at_inr; rewrite E; reflexivity).
    rewrite !Hcut.
    split; [exists ""; rewrite append_nil_r; reflexivity|].
    split; [discriminate|]. split; reflexivity.
Qed.

Lemma cut_at_inr_first_witness :
  contains "INR" "It is ₹83.10 INR today, or 1 INR less." = true
  /\ cut_at_inr "It is ₹83.10 INR today, or 1 INR less." = "It is ₹83.10 INR".
Proof.
  split; [reflexivity|].
  destruct (cut_at_inr_first "It is ₹83.10 INR today, or 1 INR less.")
    as (_ & H & _).
  destruct (H eq_refl) as [-> _]. reflexivity.
Defined.

(** *** The cut and the conversion tool *)

Lemma single_contains c s :
  contains (String c "") s = existsb (Ascii.eqb c) (BitcoinAgent.chars s).
Proof.
  induction s as [|d s IH]; [reflexivity|].
  rewrite contains_unfold, IH.
  change (starts_with (String c "") (String d s)) with (Ascii.eqb c d && true).
  rewrite andb_true_r. reflexivity.
Qed.

Lemma chars_append a b :
  BitcoinAgent.chars (a +:+ b) = BitcoinAgent.chars a ++ BitcoinAgent.chars b.
Proof.
  induction a as [|c a IH]; [reflexivity|].
  rewrite append_cons.
  change (BitcoinAgent.chars (String c (a +:+ b)))
    with (c :: BitcoinAgent.chars (a +:+ b)).
  rewrite IH. reflexivity.
Qed.

Lemma single_contains_append c a b :
  contains (String c "") (a +:+ b)
  = contains (String c "") a || contains (String c "") b.
Proof. rewrite !single_contains, chars_append. apply existsb_app. Qed.

Lemma digit_char_not_I d : (0 <= d <= 9)%Z -> Ascii.eqb "I" (BitcoinAgent.digit_char d) = false.
Proof.
  intros Hd. apply not_true_is_false. intros H.
  apply Ascii.eqb_eq in H.
  pose proof (BitcoinFacts.digit_of_digit_char d Hd) as Hdig.
  rewrite <- H in Hdig. discriminate Hdig.
Qed.

Lemma grouped_no_I n : (0 <= n)%Z -> contains "I" (BitcoinAgent.grouped n) = false.
Proof.
  intros Hn. rewrite single_contains, BitcoinFacts.chars_grouped.
  destruct (BitcoinFacts.digits_value n Hn) as (Hall & _).
  assert (Hcs : Forall (fun c => BitcoinAgent.not_comma c = true)
                  (map BitcoinAgent.digit_char (BitcoinAgent.digits n))).
  { apply Forall_map. eapply Forall_impl; [exact Hall|].
    intros d Hd. apply BitcoinFacts.digit_char_not_comma. exact Hd. }
  destruct (BitcoinFacts.group3_spec _ _ (Nat.le_refl _) Hcs) as (Hf & _).
  apply not_true_is_false. intros H.
  apply existsb_exists in H as (x & Hx & Hxi).
  apply Ascii.eqb_eq in Hxi. subst x.
  apply in_rev in Hx.
  assert (Hin : In "I"%char (List.filter BitcoinAgent.not_comma
                   (BitcoinAgent.group3
                      (map BitcoinAgent.digit_char (BitcoinAgent.digits n)))))
    by (apply List.filter_In; split; [exact Hx|reflexivity]).
  rewrite Hf in Hin. apply in_map_iff in Hin as (d & Hd & Hdin).
  assert (Hd9 : (0 <= d <= 9)%Z)
    by (apply (proj1 (List.Forall_forall _ _) Hall); exact Hdin).
  pose proof (digit_char_not_I d Hd9) as Hno. rewrite Hd in Hno.
  discriminate Hno.
Qed.

Lemma two_digits_no_I f :
  (0 <= f < 100)%Z -> contains "I" (BitcoinAgent.two_digits f) = false.
Proof.
  intros Hf. rewrite single_contains.
  change (BitcoinAgent.chars (BitcoinAgent.two_digits f))
    with [BitcoinAgent.digit_char (f / 10); BitcoinAgent.digit_char (f mod 10)].
  cbn [existsb].
  rewrite (digit_char_not_I (f / 10)), (digit_char_not_I (f mod 10)).
  - reflexivity.
  - pose proof (Z.mod_pos_bound f 10). lia.
  - split; [apply Z.div_pos; lia|].
    assert (f / 10 < 10)%Z by (apply Z.div_lt_upper_bound; lia). lia.
Qed.

Lemma format_no_I x : contains "I" (BitcoinAgent.format_comma_2f x) = false.
Proof.
  unfold BitcoinAgent.format_comma_2f.
  destruct (Prim2SF x) as [s|s| |s m e].
  - destruct s; reflexivity.
  - destruct s; reflexivity.
  - reflexivity.
  - pose proof (BitcoinFacts.hundredths_nonneg m e) as Hq.
    rewrite !single_contains_append.
    rewrite grouped_no_I by (apply Z.div_pos; lia).
    rewrite two_digits_no_I by (apply Z.mod_pos_bound; lia).
    destruct s; reflexivity.
Qed.

Lemma before_fresh p rest :
  contains "I" p = false -> before "INR" (p +:+ "INR" +:+ rest) = p.
Proof.
  induction p as [|c p IH]; intros H.
  - change ("" +:+ "INR" +:+ rest) with ("INR" +:+ rest).
    rewrite before_unfold, starts_with_app. reflexivity.
  - rewrite single_contains in H.
    change (BitcoinAgent.chars (String c p)) with (c :: BitcoinAgent.chars p) in H.
    cbn [existsb] in H. apply orb_false_iff in H as [Hc Hp].
    rewrite <- single_contains in Hp.
    rewrite append_cons, before_unfold.
    change (starts_with "INR" (String c (p +:+ "INR" +:+ rest)))
      with (Ascii.eqb "I" c && starts_with "NR" (p +:+ "INR" +:+ rest)).
    rewrite Hc. cbn [andb]. rewrite (IH Hp). reflexivity.
Qed.

(** The cut leaves the text of the conversion tool as it is: for every
    price, its only [INR] is the one that ends it. *)
Theorem cut_keeps_conversion usd_price :
  cut_at_inr (BitcoinAgent.btc_to_inr usd_price)
  = BitcoinAgent.btc_to_inr usd_price.
Proof.
  unfold BitcoinAgent.btc_to_inr.
  set (body := BitcoinAgent.format_comma_2f
                 (usd_price * BitcoinAgent.conversion_rate)%float).
  assert (Hshape : BitcoinAgent.rupee +:+ body +:+ " INR"
                   = (BitcoinAgent.rupee +:+ body +:+ " ") +:+ "INR" +:+ "").
  { rewrite !append_assoc. reflexivity. }
  assert (Hfresh : contains "I" (BitcoinAgent.rupee +:+ body +:+ " ") = false).
  { rewrite !single_contains_append. unfold body. rewrite format_no_I.
    reflexivity. }
  rewrite Hshape. unfold cut_at_inr.
  assert (Hc : contains "INR"
                 ((BitcoinAgent.rupee +:+ body +:+ " ") +:+ "INR" +:+ "") = true)
    by (apply contains_spec; eexists _, _; reflexivity).
  rewrite Hc, (before_fresh _ "" Hfresh), append_nil_r. reflexivity.
Qed.

End AnswerFacts.

(** ** Movie_Scrapper_bot/tmdb.py *)

Module TmdbFacts.
Import Py PyText Tmdb.

Lemma pages_loop_step sv api_key region language fuel page gathered :
  pages_loop sv api_key region language (S fuel) page gathered
  = bind (call (TmdbGet api_key language region page)
            (tmdb_get sv api_key language region page))
      (fun r =>
         if negb (status_code r =? 200)%Z
         then raise (RuntimeError ("TMDb API error " +:+ str_int (status_code r)
                                   +:+ ": " +:+ str_take 400 (text r)))
         else
           match json_body r with
           | None => raise (Exn JSONDecodeError)
           | Some data =>
               if (default 1 (total_pages data) <=? page)%Z
               then ret (gathered ++ map movie_of (results data))
               else
                 bind (emit Sleep)
                   (fun _ =>
                      pages_loop sv api_key region language fuel (page + 1)
                        (gathered ++ map movie_of (results data)))
           end).
Proof. reflexivity. Qed.

Lemma pages_loop_reads_all sv api_key region language total pages :
  forall start fuel gathered,
    pages <> [] ->
    length pages <= fuel ->
    total = (start + Z.of_nat (length pages) - 1)%Z ->
    (forall k p, pages !! k = Some p ->
                 served sv api_key language region (start + Z.of_nat k) p
                 /\ default 1%Z (total_pages p) = total) ->
    pages_loop sv api_key region language fuel start gathered
    = (Done (gathered ++ concat (map (fun p => map movie_of (results p)) pages)),
       page_calls api_key language region start (length pages)).
Proof.
  induction pages as [|p pages IH]; intros start fuel gathered Hne Hfuel Ht Hp;
    [contradiction|].
  destruct fuel as [|fuel]; [simpl in Hfuel; lia|].
  destruct (Hp 0 p eq_refl) as ((r & Hr & Hs & Hb) & Htot).
  rewrite Z.add_0_r in Hr.
  rewrite pages_loop_step. unfold bind at 1, call. rewrite Hr, Hs.
  change (negb (200 =? 200)%Z) with false. cbv iota. rewrite Hb, Htot.
  destruct pages as [|q pages].
  - simpl in Ht. replace (total <=? start)%Z with true
      by (symmetry; apply Z.leb_le; lia).
    simpl. rewrite app_nil_r. reflexivity.
  - cbn [length] in Ht, Hfuel.
    replace (total <=? start)%Z with false
      by (symmetry; apply Z.leb_gt; lia).
    unfold bind at 1, emit.
    assert (Hrest :
      pages_loop sv api_key region language fuel (start + 1)
        (gathered ++ map movie_of (results p))
      = (Done ((gathered ++ map movie_of (results p))
               ++ concat (map (fun p => map movie_of (results p)) (q :: pages))),
         page_calls api_key language region (start + 1) (length (q :: pages)))).
    { apply IH.
      - discriminate.
      - cbn [length]. lia.
      - cbn [length]. lia.
      - intros k p' Hk. destruct (Hp (S k) p' Hk) as [Hserved Htot'].
        replace (start + 1 + Z.of_nat k)%Z with (start + Z.of_nat (S k))%Z
          by lia.
        split; assumption. }
    rewrite Hrest. cbn [map concat length page_calls].
    rewrite <- app_assoc. reflexivity.
Qed.

Ltac failed_kind H :=
  unfold raise, ret in H; cbv beta iota zeta in H; cbn [app] in H;
  injection H as <- <-; split;
  [repeat constructor
  |let r := fresh "r" in let Hr := fresh "Hr" in
   intros r Hr; first [discriminate Hr | injection Hr as <-; exact I]].

Lemma pages_loop_kinds sv api_key region language fuel :
  forall page gathered res t,
    pages_loop sv api_key region language fuel page gathered = (res, t) ->
    Forall tmdb_only t /\ forall r, res = Failed r -> no_exit r.
Proof.
  induction fuel as [|fuel IH]; intros page gathered res t H.
  - failed_kind H.
  - rewrite pages_loop_step in H. unfold bind at 1, call in H.
    destruct (tmdb_get sv api_key language region page) as [resp|e];
      [cbv beta iota in H|failed_kind H].
    destruct (negb (status_code resp =? 200)%Z); [failed_kind H|].
    destruct (json_body resp) as [data|]; [|failed_kind H].
    destruct (default 1 (total_pages data) <=? page)%Z; [failed_kind H|].
    unfold bind, emit in H.
    destruct (pages_loop sv api_key region language fuel (page + 1)
                (gathered ++ map movie_of (results data))) as [res' t'] eqn:E.
    destruct (IH _ _ _ _ E) as [Hc Hr].
    destruct res' as [ms|r'|]; cbn [app] in H; injection H as <- <-.
    + split; [repeat constructor; exact Hc|discriminate].
    + split; [repeat constructor; exact Hc|].
      intros r Hx. injection Hx as <-. apply Hr. reflexivity.
    + split; [repeat constructor; exact Hc|discriminate].
Qed.

Lemma get_now_playing_tmdb_kinds sv fuel api_key region language res t :
  get_now_playing_tmdb sv fuel api_key region language = (res, t) ->
  Forall tmdb_only t /\ forall r, res = Failed r -> no_exit r.
Proof.
  unfold get_now_playing_tmdb. destruct api_key as [|c k]; intros H.
  - failed_kind H.
  - exact (pages_loop_kinds _ _ _ _ _ _ _ _ _ H).
Qed.

Lemma get_theaters_google_no_exit sv city api_key limit r t :
  get_theaters_google sv city api_key limit = (Failed r, t) -> no_exit r.
Proof.
  unfold get_theaters_google. destruct api_key as [|c k].
  - intros H. injection H as <- _. exact I.
  - unfold bind, call.
    destruct (google_get sv ("movie theaters in " +:+ city) (String c k))
      as [resp|e].
    2:{ intros H. injection H as <- _. exact I. }
    destruct (negb (status_code resp =? 200)%Z).
    { intros H. injection H as <- _. exact I. }
    destruct (json_body resp); intros H; [discriminate|].
    injection H as <- _. exact I.
Qed.

Lemma try_except_done {A} (a : A) t handler :
  try_except (Done a, t) handler = (Done a, t).
Proof. reflexivity. Qed.

Lemma try_except_caught {A} (m : M A) handler r t :
  m = (Failed r, t) -> no_exit r ->
  try_except m handler = (let '(r', t') := handler r in (r', t ++ t')).
Proof. intros -> Hr. destruct r; [reflexivity..|contradiction]. Qed.

(** The fetch reads the pages from the first to the one that TMDb gives
    as the total, in order, and returns their movies in that order. *)
Theorem tmdb_reads_every_page sv fuel api_key region language pages :
  api_key <> "" ->
  pages <> [] ->
  length pages <= fuel ->
  (forall k p, pages !! k = Some p ->
               served sv api_key language region (1 + Z.of_nat k) p
               /\ default 1%Z (total_pages p) = Z.of_nat (length pages)) ->
  get_now_playing_tmdb sv fuel api_key region language
  = (Done (concat (map (fun p => map movie_of (results p)) pages)),
     page_calls api_key language region 1 (length pages)).
Proof.
  intros Hkey Hne Hfuel Hp. unfold get_now_playing_tmdb.
  destruct api_key as [|c k]; [contradiction|].
  apply (pages_loop_reads_all sv (String c k) region language
           (Z.of_nat (length pages)) pages 1 fuel []); auto. lia.
Qed.

Lemma tmdb_reads_every_page_witness :
  "key" <> ""
  /\ three_pages <> []
  /\ length three_pages <= 5
  /\ get_now_playing_tmdb demo_services 5 "key" "IN" "en-US"
     = (Done (concat (map (fun p => map movie_of (results p)) three_pages)),
        page_calls "key" "en-US" "IN" 1 (length three_pages)).
Proof.
  split; [discriminate|]. split; [discriminate|]. split; [cbn; lia|].
  apply (tmdb_reads_every_page demo_services 5 "key" "IN" "en-US" three_pages).
  - discriminate.
  - discriminate.
  - cbn. lia.
  - intros k p Hk.
    destruct k as [|[|[|k]]]; cbn in Hk; try discriminate;
      injection Hk as <-; (split; [eexists; repeat split; reflexivity|reflexivity]).
Defined.

(** Without a key the fetch raises before any request.  A status other
    than 200 raises a [RuntimeError] that names the status and the first
    400 characters of the answer: the movies of the pages read before are
    not returned. *)
Theorem tmdb_refusal_raises sv fuel api_key region language r1 p1 r2 :
  api_key <> "" ->
  tmdb_get sv api_key language region 1 = Return r1 ->
  status_code r1 = 200%Z ->
  json_body r1 = Some p1 ->
  (1 < default 1 (total_pages p1))%Z ->
  tmdb_get sv api_key language region 2 = Return r2 ->
  status_code r2 <> 200%Z ->
  get_now_playing_tmdb sv (S (S fuel)) api_key region language
  = (Failed (RuntimeError ("TMDb API error " +:+ str_int (status_code r2)
                           +:+ ": " +:+ str_take 400 (text r2))),
     [TmdbGet api_key language region 1; Sleep;
      TmdbGet api_key language region 2])
  /\ get_now_playing_tmdb sv (S (S fuel)) "" region language
     = (Failed (Exn (ValueError
          "TMDB_API_KEY is required. Set TMDB_API_KEY environment variable.")),
        []).
Proof.
  intros Hkey H1 Hs1 Hb1 Ht H2 Hs2. split; [|reflexivity].
  unfold get_now_playing_tmdb. destruct api_key as [|c k]; [contradiction|].
  rewrite pages_loop_step. unfold bind at 1, call. rewrite H1, Hs1.
  change (negb (200 =? 200)%Z) with false. cbv iota. rewrite Hb1.
  replace (default 1 (total_pages p1) <=? 1)%Z with false
    by (symmetry; apply Z.leb_gt; lia).
  unfold bind at 1, emit. rewrite pages_loop_step. unfold bind, call.
  change (1 + 1)%Z with 2%Z. rewrite H2.
  replace (status_code r2 =? 200)%Z with false
    by (symmetry; apply Z.eqb_neq; exact Hs2).
  reflexivity.
Qed.

Lemma tmdb_refusal_raises_witness :
  "key" <> ""
  /\ get_now_playing_tmdb refusing_services 2 "key" "IN" "en-US"
     = (Failed (RuntimeError "TMDb API error 429: slow down"),
        [TmdbGet "key" "en-US" "IN" 1; Sleep; TmdbGet "key" "en-US" "IN" 2])
  /\ get_now_playing_tmdb refusing_services 2 "" "IN" "en-US"
     = (Failed (Exn (ValueError
          "TMDB_API_KEY is required. Set TMDB_API_KEY environment variable.")),
        []).
Proof.
  split; [discriminate|].
  apply (tmdb_refusal_raises refusing_services 0 "key" "IN" "en-US"
           (Response 200 "" (Some (Page [film 1 "Jawan"] (Some 2%Z))))
           (Page [film 1 "Jawan"] (Some 2%Z))
           (Response 429 "slow down" None));
    try reflexivity; discriminate.
Defined.

(** When the Google lookup raises, the handler of [main] reports it and
    goes on; the name [theaters] was never bound, and the [return]
    statement raises [UnboundLocalError]. *)
Theorem main_unbound_theaters sv fuel key movies calls r google_calls :
  key <> "" ->
  get_now_playing_tmdb sv fuel TMDB_API_KEY REGION TMDB_LANGUAGE
  = (Done movies, calls) ->
  get_theaters_google sv CITY_NAME key 20 = (Failed r, google_calls) ->
  main sv (Some key) fuel
  = (Failed (UnboundLocalError "theaters"),
     [Print "Fetching now-playing movies from TMDb (region= IN ) ..."]
     ++ calls
     ++ [PrintMovieList movies;
         Print (nl +:+ "Fetching theaters in Pune using Google Places...")]
     ++ google_calls
     ++ [PrintFailure "Failed to fetch Google Places data:" r]).
Proof.
  intros Hkey Hf Hg. unfold main.
  change (negb (truthy_str (Some TMDB_API_KEY))) with false. cbv iota.
  assert (Htruthy : truthy_str (Some key) = true)
    by (destruct key; [contradiction|reflexivity]).
  rewrite Htruthy. change (default "" (Some key)) with key.
  rewrite Hf, try_except_done.
  pose proof (get_theaters_google_no_exit _ _ _ _ _ _ Hg) as Hr.
  rewrite (try_except_caught _ _ r google_calls);
    [|unfold bind; rewrite Hg; reflexivity|exact Hr].
  unfold bind, emit, ret, raise. cbn [app].
  rewrite ?app_nil_r, <- ?app_assoc. reflexivity.
Qed.

Lemma main_unbound_theaters_witness :
  "AIza" <> ""
  /\ main demo_services (Some "AIza") 5
     = (Failed (UnboundLocalError "theaters"),
        [Print "Fetching now-playing movies from TMDb (region= IN ) ..."]
        ++ page_calls TMDB_API_KEY TMDB_LANGUAGE REGION 1 3
        ++ [PrintMovieList
              (concat (map (fun p => map movie_of (results p)) three_pages));
            Print (nl +:+ "Fetching theaters in Pune using Google Places...")]
        ++ [GoogleGet "movie theaters in Pune" "AIza"]
        ++ [PrintFailure "Failed to fetch Google Places data:"
              (RuntimeError "Google Places error 403: REQUEST_DENIED")]).
Proof.
  split; [discriminate|].
  apply (main_unbound_theaters demo_services 5 "AIza"); [discriminate|..];
    reflexivity.
Defined.

(** Without a Google key, [main] asks TMDb only and returns the movies
    with an empty list of theaters. *)
Theorem main_without_google_key sv fuel key movies calls :
  truthy_str key = false ->
  get_now_playing_tmdb sv fuel TMDB_API_KEY REGION TMDB_LANGUAGE
  = (Done movies, calls) ->
  main sv key fuel
  = (Done (movies, []),
     [Print "Fetching now-playing movies from TMDb (region= IN ) ..."]
     ++ calls
     ++ [PrintMovieList movies;
         Print (nl +:+ "(Google Places API key not provided — skipping theater lookup.)")])
  /\ Forall tmdb_only calls.
Proof.
  intros Hkey Hf. split.
  - unfold main.
    change (negb (truthy_str (Some TMDB_API_KEY))) with false. cbv iota.
    rewrite Hkey, Hf, try_except_done. unfold bind, emit, ret. cbn [app].
    rewrite ?app_nil_r, <- ?app_assoc. reflexivity.
  - exact (proj1 (get_now_playing_tmdb_kinds _ _ _ _ _ _ _ Hf)).
Qed.

Lemma main_without_google_key_witness :
  truthy_str (Some "") = false
  /\ main demo_services (Some "") 5
     = (Done (concat (map (fun p => map movie_of (results p)) three_pages), []),
        [Print "Fetching now-playing movies from TMDb (region= IN ) ..."]
        ++ page_calls TMDB_API_KEY TMDB_LANGUAGE REGION 1 3
        ++ [PrintMovieList
              (concat (map (fun p => map movie_of (results p)) three_pages));
            Print (nl +:+ "(Google Places API key not provided — skipping theater lookup.)")])
  /\ Forall tmdb_only (page_calls TMDB_API_KEY TMDB_LANGUAGE REGION 1 3).
Proof.
  split; [reflexivity|].
  apply (main_without_google_key demo_services 5 (Some "")); reflexivity.
Defined.

(** When the movie fetch raises, [main] reports it and exits with status
    1: no list is printed and Google is not asked. *)
Theorem main_exits_on_tmdb_failure sv fuel key r calls :
  get_now_playing_tmdb sv fuel TMDB_API_KEY REGION TMDB_LANGUAGE
  = (Failed r, calls) ->
  main sv key fuel
  = (Failed (SystemExit 1),
     [Print "Fetching now-playing movies from TMDb (region= IN ) ..."]
     ++ calls ++ [PrintFailure "Failed to fetch TMDb data:" r])
  /\ Forall tmdb_only calls.
Proof.
  intros Hf.
  destruct (get_now_playing_tmdb_kinds _ _ _ _ _ _ _ Hf) as [Hc Hr].
  split; [|exact Hc].
  unfold main.
  change (negb (truthy_str (Some TMDB_API_KEY))) with false. cbv iota.
  rewrite (try_except_caught _ _ r calls Hf (Hr r eq_refl)).
  unfold bind, emit, raise. cbn [app]. rewrite ?app_nil_r, <- ?app_assoc.
  reflexivity.
Qed.

Lemma main_exits_on_tmdb_failure_witness :
  get_now_playing_tmdb refusing_services 2 TMDB_API_KEY REGION TMDB_LANGUAGE
  = (Failed (RuntimeError "TMDb API error 429: slow down"),
     page_calls TMDB_API_KEY TMDB_LANGUAGE REGION 1 2)
  /\ main refusing_services (Some "AIza") 2
     = (Failed (SystemExit 1),
        [Print "Fetching now-playing movies from TMDb (region= IN ) ..."]
        ++ page_calls TMDB_API_KEY TMDB_LANGUAGE REGION 1 2
        ++ [PrintFailure "Failed to fetch TMDb data:"
              (RuntimeError "TMDb API error 429: slow down")])
  /\ Forall tmdb_only (page_calls TMDB_API_KEY TMDB_LANGUAGE REGION 1 2).
Proof.
  split; [reflexivity|].
  apply (main_exits_on_tmdb_failure refusing_services 2 (Some "AIza"));
    reflexivity.
Defined.

End TmdbFacts.

(** ** Sessions and builds of langchainRAG.py, further properties *)

Module SessionFacts.
Import Py VectorStore VectorStoreFacts LangchainRAG LangchainRAGFacts.
Import LangchainRAGNotions.

(** A valid local path wins over the URLs: the two directory loaders are
    run, first the PDF one, and no URL is fetched. *)
Theorem valid_path_takes_precedence sv path urls pdfs txts w :
  valid_path sv (Some path) = true ->
  directory_load sv path "**/*.pdf" = Return pdfs ->
  directory_load sv path "**/*.txt" = Return txts ->
  load_documents sv (Some path) (Some urls) w
  = (Return (pdfs ++ txts),
     World (store w)
       (log w ++ [DirectoryLoad path "**/*.pdf"; DirectoryLoad path "**/*.txt"])).
Proof.
  intros Hp Hpdf Htxt.
  exact (load_documents_directory sv path (Some urls) pdfs txts w Hp Hpdf Htxt).
Qed.

Lemma valid_path_takes_precedence_witness :
  valid_path demo_services (Some "docs") = true
  /\ load_documents demo_services (Some "docs") (Some ["https://up.example"])
       empty_world
     = (Return ([] ++ [sky]),
        World (store empty_world)
          (log empty_world
           ++ [DirectoryLoad "docs" "**/*.pdf"; DirectoryLoad "docs" "**/*.txt"])).
Proof.
  split; [reflexivity|].
  apply (valid_path_takes_precedence demo_services "docs"
           ["https://up.example"] [] [sky] empty_world); reflexivity.
Defined.

Lemma load_urls_all sv urls :
  forall pages docs w,
    Forall2 (fun u ds => web_load sv u = Return ds) urls pages ->
    load_urls sv urls docs w
    = (Return (docs ++ concat pages),
       World (store w) (log w ++ map WebLoad urls)).
Proof.
  induction urls as [|u urls IH]; intros pages docs w H.
  - apply Forall2_nil_inv_l in H as ->. simpl.
    rewrite !app_nil_r. destruct w; reflexivity.
  - apply Forall2_cons_inv_l in H as (ds & pages' & Hu & Hrest & ->).
    simpl. unfold bind, call. rewrite Hu.
    rewrite (IH pages' (docs ++ ds) _ Hrest). cbn [store log].
    rewrite <- !app_assoc. reflexivity.
Qed.

(** Without a valid path the URLs are fetched one after the other, each
    once, and the documents come back in the order of the URLs. *)
Theorem urls_loaded_in_order sv path urls pages w :
  valid_path sv path = false ->
  urls <> [] ->
  Forall2 (fun u ds => web_load sv u = Return ds) urls pages ->
  load_documents sv path (Some urls) w
  = (Return (concat pages), World (store w) (log w ++ map WebLoad urls)).
Proof.
  intros Hp Hne H. unfold load_documents. rewrite Hp.
  replace (nonempty_urls (Some urls)) with true
    by (destruct urls; [contradiction|reflexivity]).
  exact (load_urls_all sv urls pages [] w H).
Qed.

Lemma urls_loaded_in_order_witness :
  valid_path demo_services None = false
  /\ ["https://a.example"; "https://b.example"] <> []
  /\ load_documents demo_services None
       (Some ["https://a.example"; "https://b.example"]) empty_world
     = (Return (concat [[Document "page" "https://a.example"];
                        [Document "page" "https://b.example"]]),
        World (store empty_world)
          (log empty_world
           ++ map WebLoad ["https://a.example"; "https://b.example"])).
Proof.
  split; [reflexivity|]. split; [discriminate|].
  apply (urls_loaded_in_order demo_services None
           ["https://a.example"; "https://b.example"]
           [[Document "page" "https://a.example"];
            [Document "page" "https://b.example"]] empty_world).
  - reflexivity.
  - discriminate.
  - repeat constructor.
Defined.

Lemma chat_loop_trace sv questions :
  forall replies history w rest,
    Forall (fun q => is_exit q = false) questions ->
    Forall2 (fun q reply =>
               retrieve sv q = Return reply.1
               /\ llm sv (prompt_text sv q reply.1) = Return reply.2)
      questions replies ->
    chat_loop sv (questions ++ rest) history w
    = chat_loop sv rest
        (history ++ alternating_turns questions replies.*2)
        (World (store w)
           (log w ++ session_calls sv questions replies.*1)).
Proof.
  induction questions as [|q qs IH]; intros replies history w rest Hx H.
  - apply Forall2_nil_inv_l in H as ->. simpl.
    rewrite !app_nil_r. destruct w; reflexivity.
  - apply Forall2_cons_inv_l in H as ([ctx a] & replies' & [Hr Hl] & H & ->).
    apply Forall_cons in Hx as [Hq Hqs]. cbn [fst snd] in Hr, Hl.
    cbn [app chat_loop]. rewrite Hq.
    rewrite (rag_chain_invoke_returns _ _ _ _ _ _ Hr Hl).
    rewrite (IH replies' _ _ rest Hqs H).
    cbn [store log fmap list_fmap fst snd alternating_turns session_calls].
    rewrite <- !app_assoc. reflexivity.
Qed.

(** A session of answered questions that is ended by [exit] or [quit]
    closes normally.  Each question caused one retrieval and then one
    generation, whose prompt is that of the question and of the documents
    retrieved for it alone; the lines after the exit word are not read. *)
Theorem session_calls_and_exit sv questions replies word rest w :
  Forall (fun q => is_exit q = false) questions ->
  is_exit word = true ->
  Forall2 (fun q reply =>
             retrieve sv q = Return reply.1
             /\ llm sv (prompt_text sv q reply.1) = Return reply.2)
    questions replies ->
  chat_loop sv (questions ++ word :: rest) [] w
  = (Closed, alternating_turns questions replies.*2,
     World (store w) (log w ++ session_calls sv questions replies.*1)).
Proof.
  intros Hx Hw H. rewrite (chat_loop_trace sv questions replies [] w _ Hx H).
  simpl. rewrite Hw. reflexivity.
Qed.

Lemma session_calls_and_exit_witness :
  Forall (fun q => is_exit q = false) ["What color is the sky?"; "Why is that?"]
  /\ is_exit "Quit" = true
  /\ chat_loop demo_services
       (["What color is the sky?"; "Why is that?"]
        ++ "Quit" :: ["Is anyone there?"]) [] empty_world
     = (Closed,
        alternating_turns ["What color is the sky?"; "Why is that?"]
          [([sky], "It is blue."); ([sky], "It is blue.")].*2,
        World (store empty_world)
          (log empty_world
           ++ session_calls demo_services
                ["What color is the sky?"; "Why is that?"]
                [([sky], "It is blue."); ([sky], "It is blue.")].*1)).
Proof.
  assert (Hx : Forall (fun q => is_exit q = false)
                 ["What color is the sky?"; "Why is that?"])
    by (repeat constructor).
  split; [exact Hx|]. split; [reflexivity|].
  apply (session_calls_and_exit demo_services
           ["What color is the sky?"; "Why is that?"]
           [([sky], "It is blue."); ([sky], "It is blue.")]
           "Quit" ["Is anyone there?"] empty_world Hx eq_refl).
  repeat constructor.
Defined.

(** When the retriever raises, the model is not called: the session ends
    with that error after the one retrieval, and the memory is as it
    was. *)
Theorem failed_retrieval_skips_generation sv query rest e history w :
  is_exit query = false ->
  retrieve sv query = Raise e ->
  chat_loop sv (query :: rest) history w
  = (Crashed e, history, World (store w) (log w ++ [Retrieve query])).
Proof.
  intros Hx Hr. simpl. rewrite Hx.
  unfold rag_chain_invoke, bind, call. rewrite Hr. reflexivity.
Qed.

Lemma failed_retrieval_skips_generation_witness :
  is_exit "What color is the sky?" = false
  /\ retrieve broken_services "What color is the sky?"
     = Raise (ExternalError "index unreachable")
  /\ chat_loop broken_services ["What color is the sky?"; "exit"]
       [HumanMessage "Hello"; AIMessage "Hi"] empty_world
     = (Crashed (ExternalError "index unreachable"),
        [HumanMessage "Hello"; AIMessage "Hi"],
        World (store empty_world)
          (log empty_world ++ [Retrieve "What color is the sky?"])).
Proof.
  split; [reflexivity|]. split; [reflexivity|].
  apply (failed_retrieval_skips_generation broken_services); reflexivity.
Defined.

End SessionFacts.

(** ** Builds of the two stores, further properties *)

Module BuildFacts.
Import Py VectorStore VectorStoreFacts LangchainRAG LangchainRAGFacts.
Import LangchainRAGNotions.

Lemma load_urls_keeps_store sv urls :
  forall docs w res w',
    load_urls sv urls docs w = (res, w') ->
    store w' = store w
    /\ exists calls, log w' = log w ++ calls /\ Forall loader_call calls.
Proof.
  induction urls as [|u urls IH]; intros docs w res w' H.
  - injection H as <- <-. split; [reflexivity|].
    exists []. rewrite app_nil_r. split; [reflexivity|constructor].
  - simpl in H. unfold bind, call in H.
    destruct (web_load sv u) as [ds|e].
    + apply IH in H as (Hs & calls & Hl & Hc). cbn [store log] in Hs, Hl.
      split; [exact Hs|]. exists (WebLoad u :: calls).
      rewrite Hl, <- app_assoc. split; [reflexivity|].
      constructor; [exact I|exact Hc].
    + injection H as <- <-. split; [reflexivity|].
      exists [WebLoad u]. split; [reflexivity|repeat constructor].
Qed.

(** Loading only reads: whatever it returns or raises, the vector store
    is as before and the calls made are calls of the loaders. *)
Lemma load_documents_keeps_store sv path urls w res w' :
  load_documents sv path urls w = (res, w') ->
  store w' = store w
  /\ exists calls, log w' = log w ++ calls /\ Forall loader_call calls.
Proof.
  unfold load_documents. destruct (valid_path sv path).
  - unfold bind, call, ret.
    destruct (directory_load sv (default "" path) "**/*.pdf") as [pdfs|e].
    + destruct (directory_load sv (default "" path) "**/*.txt") as [txts|e];
        intros H; injection H as <- <-; (split; [reflexivity|]);
        eexists; cbn [log]; rewrite <- app_assoc;
        (split; [reflexivity|repeat constructor]).
    + intros H; injection H as <- <-. split; [reflexivity|].
      eexists. split; [reflexivity|repeat constructor].
  - destruct (nonempty_urls urls).
    + apply load_urls_keeps_store.
    + intros H. injection H as <- <-. split; [reflexivity|].
      exists []. rewrite app_nil_r. split; [reflexivity|constructor].
Qed.

(** When loading raises, the build raises the same error at once: the
    embedding model is not loaded, the cloud is not reached, the store is
    untouched. *)
Theorem failed_load_leaves_store sv path e w w' :
  load_documents sv (Some path) None w = (Raise e, w') ->
  build_vector_store sv path w = (Raise e, w')
  /\ store w' = store w
  /\ exists calls, log w' = log w ++ calls /\ Forall loader_call calls.
Proof.
  intros H. split.
  - unfold build_vector_store, bind at 1. rewrite H. reflexivity.
  - exact (load_documents_keeps_store _ _ _ _ _ _ H).
Qed.

Lemma failed_load_leaves_store_witness :
  load_documents broken_services (Some "docs") None
    (World other_collection [])
  = (Raise (ExternalError "invalid start byte"),
     World other_collection
       [DirectoryLoad "docs" "**/*.pdf"; DirectoryLoad "docs" "**/*.txt"])
  /\ build_vector_store broken_services "docs" (World other_collection [])
     = (Raise (ExternalError "invalid start byte"),
        World other_collection
          [DirectoryLoad "docs" "**/*.pdf"; DirectoryLoad "docs" "**/*.txt"])
  /\ other_collection = other_collection
  /\ exists calls,
      [DirectoryLoad "docs" "**/*.pdf"; DirectoryLoad "docs" "**/*.txt"]
      = [] ++ calls
      /\ Forall loader_call calls.
Proof.
  split; [reflexivity|].
  apply (failed_load_leaves_store broken_services "docs"
           (ExternalError "invalid start byte")
           (World other_collection [])
           (World other_collection
              [DirectoryLoad "docs" "**/*.pdf"; DirectoryLoad "docs" "**/*.txt"])).
  reflexivity.
Defined.

(** A build that returns has changed the collection [Langchain_store]
    only: every other collection of the project is as before.  The delete
    call was made exactly when the collection was listed. *)
Theorem build_leaves_other_collections sv path w w' other :
  build_vector_store sv path w = (Return collection_name, w') ->
  other <> collection_name ->
  collections (store w') !! other = collections (store w) !! other
  /\ exists calls,
      log w' = log w ++ calls
      /\ (DeleteCollection collection_name ∈ calls
          <-> collection_name ∈ list_collections (store w)).
Proof.
  intros H Hother.
  destruct (build_vector_store_returns _ _ _ _ _ H)
    as (pdfs & txts & _ & _ & _ & _ & Hs & Hl).
  split.
  - rewrite Hs. unfold rebuilt, from_documents. cbn [collections].
    rewrite lookup_insert_ne by congruence.
    case_bool_decide; [|reflexivity].
    unfold delete_collection. cbn [collections].
    apply lookup_delete_ne. congruence.
  - eexists. split; [exact Hl|].
    unfold build_calls. case_bool_decide as Hin.
    + split; [intros _; exact Hin|intros _].
      rewrite !elem_of_app. right. left. apply list_elem_of_singleton.
      reflexivity.
    + split; [|contradiction]. intros Hd.
      rewrite !elem_of_app in Hd. destruct Hd as [Hd|[Hd|Hd]].
      * rewrite !elem_of_cons in Hd.
        repeat (destruct Hd as [Hd|Hd]; [discriminate Hd|]).
        apply elem_of_nil in Hd as [].
      * apply elem_of_nil in Hd as [].
      * apply list_elem_of_singleton in Hd. discriminate Hd.
Qed.

Lemma build_leaves_other_collections_witness :
  build_vector_store demo_services "docs" (World other_collection [])
  = (Return collection_name, beside_other_collection)
  /\ "Other_store" <> collection_name
  /\ collections (store beside_other_collection) !! "Other_store"
     = collections other_collection !! "Other_store"
  /\ exists calls,
      log beside_other_collection = [] ++ calls
      /\ (DeleteCollection collection_name ∈ calls
          <-> collection_name ∈ list_collections other_collection).
Proof.
  assert (H : build_vector_store demo_services "docs" (World other_collection [])
              = (Return collection_name, beside_other_collection))
    by reflexivity.
  split; [exact H|]. split; [discriminate|].
  apply (build_leaves_other_collections demo_services "docs"
           (World other_collection []) beside_other_collection "Other_store" H).
  discriminate.
Defined.



End BuildFacts.

(** ** Movie agent, further properties *)

Module MovieBotEdgeFacts.
Import Py PyFacts MovieBot MovieBotFacts MovieBotCases.

(** A transport failure on the second page is not handled like a status
    other than 200: the fetch raises, and the movies read from the first
    page are not returned, by the fetch or by the tool. *)
Theorem second_page_failure_raises sv region r1 d1 e :
  tmdb_get sv region 1 = Return r1 ->
  status_code r1 = 200%Z ->
  json_body r1 = Some d1 ->
  (1 < default 1 (total_pages d1))%Z ->
  tmdb_get sv region 2 = Raise e ->
  get_now_playing_tmdb sv region
  = (Raise e, [TmdbGet region 1; Sleep; TmdbGet region 2])
  /\ get_now_playing sv region
     = (Raise e, [TmdbGet region 1; Sleep; TmdbGet region 2]).
Proof.
  intros H1 Hs Hb Ht H2.
  assert (Hf : get_now_playing_tmdb sv region
               = (Raise e, [TmdbGet region 1; Sleep; TmdbGet region 2])).
  { unfold get_now_playing_tmdb. simpl. unfold bind, call.
    rewrite H1, Hs, Hb. simpl. apply Z.leb_gt in Ht. rewrite Ht, H2.
    reflexivity. }
  split; [exact Hf|]. unfold get_now_playing, bind. rewrite Hf. reflexivity.
Qed.

Lemma second_page_failure_raises_witness :
  tmdb_get timeout_services "IN" 1 = Return (Response 200 (Some page_one))
  /\ tmdb_get timeout_services "IN" 2 = Raise (ExternalError "read timed out")
  /\ get_now_playing_tmdb timeout_services "IN"
     = (Raise (ExternalError "read timed out"),
        [TmdbGet "IN" 1; Sleep; TmdbGet "IN" 2])
  /\ get_now_playing timeout_services "IN"
     = (Raise (ExternalError "read timed out"),
        [TmdbGet "IN" 1; Sleep; TmdbGet "IN" 2]).
Proof.
  split; [reflexivity|]. split; [reflexivity|].
  apply (second_page_failure_raises timeout_services "IN"
           (Response 200 (Some page_one)) page_one
           (ExternalError "read timed out")); reflexivity.
Defined.

Lemma first_match_untitled sv movie_title before m after :
  Forall (passed_over sv movie_title) before ->
  title m = None ->
  first_match sv movie_title (before ++ m :: after) = Raise AttributeError.
Proof.
  intros Hb Ht. induction Hb as [|m' before Hm' _ IH]; simpl.
  - rewrite Ht. reflexivity.
  - destruct (passed_over_no_match _ _ _ Hm') as (t' & -> & ->). exact IH.
Qed.

Lemma fetched_calls sv region res calls :
  get_now_playing_tmdb sv region = (res, calls) -> Forall tmdb_call calls.
Proof.
  intros H. pose proof (fetch_pages_calls sv region [1; 2]%Z []) as Hc.
  unfold get_now_playing_tmdb in H. rewrite H in Hc. exact Hc.
Qed.

(** An entry without a title that the search reaches before any match
    makes the tool raise [AttributeError]; the only calls made are those
    to TMDb.  The entries before it are passed over by what [str.lower]
    makes of their titles and of the query. *)
Theorem untitled_entry_raises sv movie_title city before m after calls :
  get_now_playing_tmdb sv "IN" = (Return (before ++ m :: after), calls) ->
  Forall (passed_over sv movie_title) before ->
  title m = None ->
  find_movie_in_city sv movie_title city = (Raise AttributeError, calls)
  /\ Forall tmdb_call calls.
Proof.
  intros Hf Hb Ht. split; [|exact (fetched_calls _ _ _ _ Hf)].
  unfold find_movie_in_city, bind. rewrite Hf.
  rewrite (first_match_untitled _ _ _ _ after Hb Ht). simpl.
  rewrite app_nil_r. reflexivity.
Qed.

Lemma untitled_entry_raises_witness :
  get_now_playing_tmdb untitled_services "IN"
  = (Return ([movie_of (film 1 "Jawan")]
             ++ movie_of untitled :: [movie_of (film 3 "Leo")]),
     [TmdbGet "IN" 1])
  /\ Forall (passed_over untitled_services "Leo") [movie_of (film 1 "Jawan")]
  /\ find_movie_in_city untitled_services "Leo" "Pune"
     = (Raise AttributeError, [TmdbGet "IN" 1])
  /\ Forall tmdb_call [TmdbGet "IN" 1].
Proof.
  assert (Hb : Forall (passed_over untitled_services "Leo")
                 [movie_of (film 1 "Jawan")]).
  { constructor; [|constructor].
    apply (no_match_passed_over untitled_services "Leo" _ "Jawan");
      reflexivity. }
  split; [reflexivity|]. split; [exact Hb|].
  apply (untitled_entry_raises untitled_services "Leo" "Pune"
           [movie_of (film 1 "Jawan")] (movie_of untitled)
           [movie_of (film 3 "Leo")] [TmdbGet "IN" 1]
           eq_refl Hb eq_refl).
Defined.

(** A matching movie without an overview: the theaters are looked up
    first, and then the tool raises [TypeError].  The match is that of
    the lowered texts, whatever [str.lower] makes of them. *)
Theorem missing_overview_raises sv movie_title city before m after t calls :
  get_now_playing_tmdb sv "IN" = (Return (before ++ m :: after), calls) ->
  Forall (passed_over sv movie_title) before ->
  title m = Some t ->
  title_matches sv movie_title t ->
  overview m = None ->
  find_movie_in_city sv movie_title city
  = (Raise TypeError, calls ++ (get_theaters_open sv city 15).2).
Proof.
  intros Hf Hb Ht Hm Ho. unfold find_movie_in_city, bind. rewrite Hf.
  rewrite (first_match_found _ _ _ _ after _ Hb Ht Hm).
  destruct (get_theaters_open sv city 15) as [d tc].
  rewrite Ho. simpl. rewrite !app_nil_r. reflexivity.
Qed.

Lemma missing_overview_raises_witness :
  Forall (passed_over sparse_services "leo") [movie_of (film 1 "Jawan")]
  /\ title_matches sparse_services "leo" "Leo"
  /\ find_movie_in_city sparse_services "leo" "Pune"
     = (Raise TypeError,
        [TmdbGet "IN" 1] ++ (get_theaters_open sparse_services "Pune" 15).2)
  /\ (get_theaters_open sparse_services "Pune" 15).2
     = [NominatimGet "Pune"; OverpassPost "18.52" "73.85"].
Proof.
  assert (Hb : Forall (passed_over sparse_services "leo")
                 [movie_of (film 1 "Jawan")]).
  { constructor; [|constructor].
    apply (no_match_passed_over sparse_services "leo" _ "Jawan");
      reflexivity. }
  assert (Hm : title_matches sparse_services "leo" "Leo")
    by (exists "", ""; reflexivity).
  split; [exact Hb|]. split; [exact Hm|]. split; [|reflexivity].
  apply (missing_overview_raises sparse_services "leo" "Pune"
           [movie_of (film 1 "Jawan")] (movie_of leo_without_overview) []
           "Leo" [TmdbGet "IN" 1] eq_refl Hb eq_refl Hm eq_refl).
Defined.

(** Every title contains the empty text: an empty query selects the
    first now-playing movie, whatever it is. *)
Theorem empty_query_selects_first sv city m rest t text calls :
  get_now_playing_tmdb sv "IN" = (Return (m :: rest), calls) ->
  title m = Some t ->
  overview m = Some text ->
  find_movie_in_city sv "" city
  = (Return
       (JObj [ ("movie", JStr t);
               ("release_date", opt_json JStr (release_date m));
               ("overview", JStr (str_take 180 text +:+ "..."));
               ("city", JStr city);
               ("likely_theaters",
                likely_theaters
                  (theaters_of (get_theaters_open sv city 15).1)) ]),
     calls ++ (get_theaters_open sv city 15).2).
Proof.
  intros Hf Ht Ho. unfold find_movie_in_city, bind. rewrite Hf.
  assert (Hm : title_matches sv "" t)
    by (exists "", (py_lower sv t); reflexivity).
  pose proof (first_match_found sv "" [] m rest t (Forall_nil_2 _) Ht Hm)
    as Hfirst.
  change ([] ++ m :: rest) with (m :: rest) in Hfirst. rewrite Hfirst.
  destruct (get_theaters_open sv city 15) as [d tc].
  rewrite Ho, Ht. simpl. rewrite !app_nil_r. reflexivity.
Qed.

Lemma empty_query_selects_first_witness :
  get_now_playing_tmdb sparse_services "IN"
  = (Return (movie_of (film 1 "Jawan") :: [movie_of leo_without_overview]),
     [TmdbGet "IN" 1])
  /\ find_movie_in_city sparse_services "" "Pune"
     = (Return
          (JObj [ ("movie", JStr "Jawan");
                  ("release_date", opt_json JStr (Some "2025-01-01"));
                  ("overview", JStr (str_take 180 "About Jawan" +:+ "..."));
                  ("city", JStr "Pune");
                  ("likely_theaters",
                   likely_theaters
                     (theaters_of (get_theaters_open sparse_services "Pune" 15).1)) ]),
        [TmdbGet "IN" 1] ++ (get_theaters_open sparse_services "Pune" 15).2).
Proof.
  split; [reflexivity|].
  apply (empty_query_selects_first sparse_services "Pune"
           (movie_of (film 1 "Jawan")) [movie_of leo_without_overview]
           "Jawan" "About Jawan" [TmdbGet "IN" 1]); reflexivity.
Defined.

(** A query in capitals with an accented letter finds the title that has
    it in lower case, when [str.lower] lowers the letter. *)
Example accented_title_found :
  exists answer,
    find_movie_in_city accented_services "POKÉMON" "Pune"
    = (Return (JObj (("movie", JStr "Pokémon Detective") :: answer)),
       [TmdbGet "IN" 1; NominatimGet "Pune"; OverpassPost "18.52" "73.85"]).
Proof. eexists. vm_compute. reflexivity. Qed.

(** [get_theaters_open] geocodes first and asks Overpass only with the
    coordinates of the first hit.  It reports theaters only when Overpass
    gave some: then they are the first [limit] elements, in order. *)
Theorem theaters_open_shape sv city limit :
  length (theaters_of (get_theaters_open sv city limit).1) <= limit
  /\ ((get_theaters_open sv city limit).2 = [NominatimGet city]
      \/ exists lat lon more,
          nominatim_get sv city = Return ((lat, lon) :: more)
          /\ (get_theaters_open sv city limit).2
             = [NominatimGet city; OverpassPost lat lon])
  /\ (forall c theaters,
        (get_theaters_open sv city limit).1 = TheatersFound c theaters ->
        c = city
        /\ exists lat lon more elements,
            nominatim_get sv city = Return ((lat, lon) :: more)
            /\ overpass_post sv lat lon = Return (Some elements)
            /\ elements <> []
            /\ theaters = map theater_of (take limit elements)).
Proof.
  unfold get_theaters_open.
  destruct (nominatim_get sv city) as [[|[lat lon] more]|e];
    cbv beta iota zeta; cbn [fst snd].
  - split; [simpl; lia|]. split; [left; reflexivity|]. discriminate.
  - destruct (overpass_post sv lat lon) as [[[|el els]|]|e] eqn:Eo;
      cbv beta iota zeta; cbn [fst snd].
    + split; [simpl; lia|]. split; [right; eauto 6|]. discriminate.
    + split; [cbn [theaters_of]; rewrite length_map, length_take; lia|].
      split; [right; eauto 6|].
      intros c ts H. injection H as <- <-. split; [reflexivity|].
      exists lat, lon, more, (el :: els).
      split; [reflexivity|]. split; [exact Eo|].
      split; [discriminate|reflexivity].
    + split; [simpl; lia|]. split; [right; eauto 6|]. discriminate.
    + split; [simpl; lia|]. split; [right; eauto 6|]. discriminate.
  - split; [simpl; lia|]. split; [left; reflexivity|]. discriminate.
Qed.

End MovieBotEdgeFacts.

(** ** The text join of RAG_Agent.py against the loop of the movie agent *)

Module RagAgentFacts.
Import Py PyText ChatbotAnswer RagAgent PyTextFacts.

Lemma text_of_parts_acc acc parts :
  text_of_parts acc parts = acc +:+ text_of_parts "" parts.
Proof.
  revert acc; induction parts as [|[t|] parts IH]; intros acc; cbn [text_of_parts].
  - rewrite append_nil_r. reflexivity.
  - rewrite (IH (acc +:+ default "" t)), (IH ("" +:+ default "" t)).
    change ("" +:+ default "" t) with (default "" t).
    rewrite append_assoc. reflexivity.
  - apply IH.
Qed.

Lemma join_empty_cons t ts : join "" (t :: ts) = t +:+ join "" ts.
Proof.
  destruct ts as [|u ts]; cbn [join].
  - rewrite append_nil_r. reflexivity.
  - reflexivity.
Qed.

Lemma texts_readable items :
  Forall (fun c => unreadable c = None) items ->
  exists ts, texts items = Return ts
             /\ join "" ts = text_of_parts "" (map part_of items).
Proof.
  induction 1 as [|c items Hc _ (ts & Hts & Hj)].
  - exists []. split; reflexivity.
  - destruct c as [[ty|] tx|]; try discriminate Hc.
    cbn [texts map part_of unreadable] in *.
    destruct (String.eqb ty "text").
    + destruct tx as [t|]; [|discriminate Hc].
      rewrite Hts. exists (t :: ts). split; [reflexivity|].
      cbn [text_of_parts]. rewrite text_of_parts_acc, join_empty_cons, Hj.
      reflexivity.
    + exists ts. split; [exact Hts|exact Hj].
Qed.

Lemma texts_unreadable before c after e :
  Forall (fun c => unreadable c = None) before ->
  unreadable c = Some e ->
  texts (before ++ c :: after) = Raise e.
Proof.
  intros Hb Hc. induction Hb as [|d before Hd _ IH].
  - cbn [app]. destruct c as [[ty|] tx|]; cbn [texts unreadable] in *.
    + destruct (String.eqb ty "text"); [|discriminate Hc].
      destruct tx; [discriminate Hc|]. congruence.
    + congruence.
    + congruence.
  - destruct d as [[ty|] tx|]; try discriminate Hd.
    cbn [app texts unreadable] in *.
    destruct (String.eqb ty "text"); [|exact IH].
    destruct tx; [|discriminate Hd]. rewrite IH. reflexivity.
Qed.

(** On a content list whose items can all be read, the join of
    [RAG_Agent.py] gives the text that the loop of the movie agent
    gathers, and the answer printed is that text stripped.  Otherwise the
    first item that cannot be read decides what the join raises:
    [TypeError] for an item that is no dictionary, [KeyError] for a
    dictionary without [type], or of type [text] without [text].  The
    loop of the movie agent gives a text for every list. *)
Theorem join_agrees_with_loop items :
  (Forall (fun c => unreadable c = None) items ->
   text_output (Items items)
   = Return (extract_text (ContentList (map part_of items)))
   /\ printed_answer (Items items)
      = Return (strip (extract_text (ContentList (map part_of items)))))
  /\ (forall before c after e,
        items = before ++ c :: after ->
        Forall (fun c => unreadable c = None) before ->
        unreadable c = Some e ->
        (e = TypeError \/ e = KeyError "type" \/ e = KeyError "text")
        /\ text_output (Items items) = Raise e
        /\ printed_answer (Items items) = Raise e).
Proof.
  split.
  - intros H. destruct (texts_readable items H) as (ts & Hts & Hj).
    unfold printed_answer, text_output. rewrite Hts, Hj. split; reflexivity.
  - intros before c after e -> Hb Hc. split.
    + destruct c as [[ty|] tx|]; cbn [unreadable] in Hc.
      * destruct (String.eqb ty "text"); [|discriminate Hc].
        destruct tx; [discriminate Hc|]. right. right. congruence.
      * right. left. congruence.
      * left. congruence.
    + unfold printed_answer, text_output.
      rewrite (texts_unreadable before c after e Hb Hc). split; reflexivity.
Qed.

(** A list with a plain string among its items, and one with a
    dictionary that has no type. *)
Example plain_string_item :
  text_output (Items [Dict (Some "text") (Some "Hello"); NotDict])
  = Raise TypeError
  /\ text_output (Items [Dict (Some "image") None; Dict None (Some "Hello")])
     = Raise (KeyError "type")
  /\ printed_answer
       (Items [Dict (Some "text") (Some (utf8 160 +:+ "Hello "));
               Dict (Some "image") None;
               Dict (Some "text") (Some ("there." +:+ nl))])
     = Return "Hello there.".
Proof. repeat split; vm_compute; reflexivity. Qed.

End RagAgentFacts.
